(** * A typed routing layer over Express with Zod validation and derived
    Swagger documentation: shallow embedding and verified properties.

    The development follows [src/server/index.ts] (the router classes, the
    request pipeline, the schema converters), the [SwaggerDoc] class of the
    documentation assembler and the program of [src/index.ts].  JavaScript
    values are modelled as a tree type, objects as association lists in
    property-enumeration order, exceptions as an error monad, and the
    objects shared between the server and its sub-routers as a store indexed
    by references.  The collaborators (Express, Zod, [JSON.parse]) are
    modelled as far as the code relies on them. *)

From Stdlib Require Import ZArith NArith Ascii String.
From stdpp Require Import base option list strings pretty gmap.

Set Warnings "-register-all".

(** ** JavaScript values *)

(** Plain data as handled by the code: example objects, documentation
    shapes, response bodies and parsed JSON.  Integers are [VNum]; a number
    literal with a fraction or an exponent is kept as its lexeme in
    [VFloat]: of its rounding to a double only whether it gives zero is
    modelled.  Strings are byte sequences. *)
Inductive JsVal :=
| VUndefined
| VNull
| VBool (b : bool)
| VNum (n : Z)
| VFloat (lit : string)
| VStr (s : string)
| VArr (items : list JsVal)
| VObj (fields : list (string * JsVal)).

Abbreviation Fields := (list (string * JsVal)).

(** [o[k]] on the own properties of an object. *)
Fixpoint obj_get {A} (k : string) (o : list (string * A)) : option A :=
  match o with
  | [] => None
  | (k', v) :: o' => if decide (k = k') then Some v else obj_get k o'
  end.

(** ** Text *)

Definition is_digit (c : ascii) : bool :=
  let n := N_of_ascii c in ((48 <=? n) && (n <=? 57))%N.

(** The class [\w] of JavaScript regular expressions. *)
Definition is_word (c : ascii) : bool :=
  let n := N_of_ascii c in
  (((48 <=? n) && (n <=? 57)) || ((65 <=? n) && (n <=? 90))
   || ((97 <=? n) && (n <=? 122)) || (n =? 95))%N.

Definition dquote : string := String (ascii_of_N 34) "".

Definition snoc (s : string) (c : ascii) : string := s +:+ String c "".

Fixpoint drop_str (n : nat) (s : string) : string :=
  match n, s with
  | S n', String _ s' => drop_str n' s'
  | _, _ => s
  end.

(** [hay.includes(needle)] *)
Fixpoint includes (needle hay : string) : bool :=
  String.prefix needle hay
  || match hay with
     | EmptyString => false
     | String _ h => includes needle h
     end.

(** [s.split(sep)] for a non-empty separator: [cur] is the piece being
    read, [skip] counts the characters of a separator still to pass. *)
Fixpoint split_go (sep : string) (skip : nat) (cur s : string) : list string :=
  match s with
  | EmptyString => [cur]
  | String c s' =>
      match skip with
      | S k => split_go sep k cur s'
      | O =>
          if String.prefix sep s
          then cur :: split_go sep (String.length sep - 1) "" s'
          else split_go sep 0 (snoc cur c) s'
      end
  end.

Definition split (sep s : string) : list string := split_go sep 0 "" s.

(** [s.replace(pat, rep)] with a string pattern: the first occurrence only. *)
Fixpoint replace_first (pat rep s : string) {struct s} : string :=
  if String.prefix pat s then rep +:+ drop_str (String.length pat) s
  else match s with
       | EmptyString => ""
       | String c s' => String c (replace_first pat rep s')
       end.

(** The global replace of [/(\w+):/] by the same word between double
    quotes and the colon: [run] is the run of word characters read so far; a
    run directly followed by a colon is quoted. *)
Fixpoint quote_keys_go (run s : string) : string :=
  match s with
  | EmptyString => run
  | String c s' =>
      if is_word c then quote_keys_go (snoc run c) s'
      else if decide (c = ":"%char ∧ run ≠ "")
      then dquote +:+ run +:+ dquote +:+ ":" +:+ quote_keys_go "" s'
      else run +:+ String c (quote_keys_go "" s')
  end.

Definition quote_keys (s : string) : string := quote_keys_go "" s.

(** [path.match(/:(\w+)/g)] followed by [substring(1)] on every match: the
    names of the dynamic segments.  [cur] is [Some run] after a colon. *)
Fixpoint match_params_go (cur : option string) (s : string) : list string :=
  let flush := match cur with
               | Some run => if decide (run = "") then [] else [run]
               | None => []
               end in
  match s with
  | EmptyString => flush
  | String c s' =>
      match cur with
      | Some run =>
          if is_word c then match_params_go (Some (snoc run c)) s'
          else flush ++ match_params_go
                          (if decide (c = ":"%char) then Some "" else None) s'
      | None =>
          match_params_go (if decide (c = ":"%char) then Some "" else None) s'
      end
  end.

Definition match_params (path : string) : list string :=
  match_params_go None path.

(** [s.toUpperCase()] on ASCII letters. *)
Definition upper_char (c : ascii) : ascii :=
  let n := N_of_ascii c in
  if ((97 <=? n) && (n <=? 122))%N then ascii_of_N (n - 32) else c.

Fixpoint toUpperCase (s : string) : string :=
  match s with
  | EmptyString => ""
  | String c s' => String (upper_char c) (toUpperCase s')
  end.

Fixpoint chars (s : string) : list string :=
  match s with
  | EmptyString => []
  | String c s' => String c "" :: chars s'
  end.

Fixpoint join (sep : string) (l : list string) : string :=
  match l with
  | [] => ""
  | [x] => x
  | x :: l' => x +:+ sep +:+ join sep l'
  end.

(** ** Properties of objects *)

(** The value of a run of decimal digits. *)
Fixpoint decimal (acc : N) (s : string) : N :=
  match s with
  | EmptyString => acc
  | String c s' => decimal (10 * acc + (N_of_ascii c - 48)) s'
  end.

(** A property key that is an array index: the canonical decimal text of
    an integer from 0 to 2^32 - 2. *)
Definition array_index (k : string) : option N :=
  match k with
  | EmptyString => None
  | String c rest =>
      if forallb is_digit (String.list_ascii_of_string k)
         && (bool_decide (rest = "") || negb (bool_decide (c = "0"%char)))
         && (decimal 0 k <=? 4294967294)%N
      then Some (decimal 0 k)
      else None
  end.

(** The order in which JavaScript enumerates the own properties of an
    object: array indices first, in ascending order, then the other keys in
    the order of their creation.  [enumerated_before k k'] tells whether a
    property created with key [k] is enumerated before an existing property
    [k']. *)
Definition enumerated_before (k k' : string) : bool :=
  match array_index k, array_index k' with
  | Some i, Some j => (i <? j)%N
  | Some _, None => true
  | None, _ => false
  end.

Fixpoint obj_replace {A} (k : string) (v : A) (o : list (string * A))
  : list (string * A) :=
  match o with
  | [] => []
  | (k', v') :: o' =>
      if decide (k = k') then (k, v) :: o' else (k', v') :: obj_replace k v o'
  end.

Fixpoint obj_insert {A} (k : string) (v : A) (o : list (string * A))
  : list (string * A) :=
  match o with
  | [] => [(k, v)]
  | (k', v') :: o' =>
      if enumerated_before k k' then (k, v) :: o else (k', v') :: obj_insert k v o'
  end.

(** The own data property [k] of [o] gets the value [v], as in an object
    literal, [Object.fromEntries], a spread and [JSON.parse]: an existing
    property keeps its place, a new one takes its place in the enumeration
    order. *)
Definition obj_set {A} (k : string) (v : A) (o : list (string * A))
  : list (string * A) :=
  match obj_get k o with
  | Some _ => obj_replace k v o
  | None => obj_insert k v o
  end.

(** The assignment [o[k] = v] on an ordinary object.  The key [__proto__]
    names the accessor of [Object.prototype]: assigning to it creates no
    property (it changes the prototype when [v] is an object, which the own
    properties do not show). *)
Definition obj_assign {A} (k : string) (v : A) (o : list (string * A))
  : list (string * A) :=
  if decide (k = "__proto__") then o else obj_set k v o.

(** The keys after a property is created: its place depends on the keys
    alone. *)
Fixpoint keys_insert (k : string) (ks : list string) : list string :=
  match ks with
  | [] => [k]
  | k' :: ks' => if enumerated_before k k' then k :: ks else k' :: keys_insert k ks'
  end.

(** A list of keys in the order JavaScript enumerates them: no key is
    enumerated before one that stands earlier in the list. *)
Fixpoint enumeration (ks : list string) : Prop :=
  match ks with
  | [] => True
  | k :: ks' => (∀ k', k' ∈ ks' → enumerated_before k' k = false) ∧ enumeration ks'
  end.

(** [{...a, ...b}] and [Object.fromEntries(b)] started from [a]. *)
Definition spread {A} (a b : list (string * A)) : list (string * A) :=
  foldl (λ o kv, obj_set kv.1 kv.2 o) a b.

Definition fromEntries {A} (es : list (string * A)) : list (string * A) :=
  spread [] es.

(** ** Errors and exceptions *)

Inductive PathSeg :=
| PKey (k : string)
| PIndex (i : N).

(** One entry of [ZodError.errors]. *)
Record ZodIssue := { issue_path : list PathSeg; issue_message : string }.

(** What [instanceof] can tell about an error object: [HttpError] with its
    status code, [ZodError] with its issues, or any other [Error]. *)
Inductive ErrorClass :=
| OtherError
| IsHttpError (statusCode : Z)
| IsZodError (errors : list ZodIssue).

(** An error object: its class, [name], [message] and [stack], and the
    own properties a subclass defined elsewhere may add, such as a status
    code of its own. *)
Record JsError := {
  cls : ErrorClass;
  err_name : string;
  err_message : string;
  err_stack : string;
  err_props : list (string * JsVal)
}.

(** A thrown value: an [Error] object or anything else. *)
Inductive Thrown :=
| ThrowError (e : JsError)
| ThrowValue (v : JsVal).

(** [new Error(msg)] and the built-in subclasses; the stack is its header
    line, the frames depend on the runtime. *)
Definition new_named (name msg : string) : JsError :=
  {| cls := OtherError; err_name := name; err_message := msg;
     err_stack := name +:+ ": " +:+ msg; err_props := [] |}.

Definition new_Error : string → JsError := new_named "Error".
Definition new_TypeError : string → JsError := new_named "TypeError".
Definition new_SyntaxError : string → JsError := new_named "SyntaxError".

(** [class HttpError extends Error]: the constructor keeps the status code
    and names the error.  The class is private to the module, which does
    not export it. *)
Definition new_HttpError (statusCode : Z) (msg : string) : JsError :=
  {| cls := IsHttpError statusCode; err_name := "HttpError";
     err_message := msg; err_stack := "HttpError: " +:+ msg; err_props := [] |}.

Inductive Result (A : Type) :=
| Ok (a : A)
| Throw (e : Thrown).
Arguments Ok {A} a.
Arguments Throw {A} e.

#[global] Instance result_ret : MRet Result := @Ok.
#[global] Instance result_bind : MBind Result :=
  λ A B f m, match m with Ok a => f a | Throw e => Throw e end.

(** [arr.forEach(f)] for an [f] that may throw. *)
Fixpoint forEach {A S} (f : S → A → Result S) (st : S) (l : list A) : Result S :=
  match l with
  | [] => Ok st
  | x :: l' => st' ← f st x; forEach f st' l'
  end.

(** ** JSON.parse *)

(** The collaborator behind [JSON.parse]: a lexer that reads one character
    per step and a parser that reads one token per step, so both are total.
    [read] answers [None] where [JSON.parse] throws its [SyntaxError]. *)
Module JSON.

Inductive Token :=
| TLBrace | TRBrace | TLBrack | TRBrack | TColon | TComma
| TString (s : string)
| TWord (lexeme : string).

Inductive LexState :=
| LIdle
| LWord (acc : string)
| LStr (acc : string)
| LEsc (acc : string)
| LHex (acc : string) (digits : list N).

Definition is_ws (c : ascii) : bool :=
  let n := N_of_ascii c in ((n =? 32) || (n =? 9) || (n =? 10) || (n =? 13))%N.

Definition is_lexeme_char (c : ascii) : bool :=
  let n := N_of_ascii c in
  (is_word c && negb (n =? 95)%N) || (n =? 43)%N || (n =? 45)%N || (n =? 46)%N.

Definition punct (c : ascii) : option Token :=
  match N_of_ascii c with
  | 123%N => Some TLBrace
  | 125%N => Some TRBrace
  | 91%N => Some TLBrack
  | 93%N => Some TRBrack
  | 58%N => Some TColon
  | 44%N => Some TComma
  | _ => None
  end.

(** The character after a backslash, [u] apart. *)
Definition unescape (c : ascii) : option ascii :=
  match N_of_ascii c with
  | 34%N => Some c
  | 92%N => Some c
  | 47%N => Some c
  | 98%N => Some (ascii_of_N 8)
  | 102%N => Some (ascii_of_N 12)
  | 110%N => Some (ascii_of_N 10)
  | 114%N => Some (ascii_of_N 13)
  | 116%N => Some (ascii_of_N 9)
  | _ => None
  end.

Definition hex_digit (c : ascii) : option N :=
  let n := N_of_ascii c in
  if ((48 <=? n) && (n <=? 57))%N then Some (n - 48)%N
  else if ((65 <=? n) && (n <=? 70))%N then Some (n - 55)%N
  else if ((97 <=? n) && (n <=? 102))%N then Some (n - 87)%N
  else None.

(** A code unit written [\uXXXX], as UTF-8 bytes. *)
Definition utf8 (n : N) : string :=
  if (n <? 128)%N then String (ascii_of_N n) ""
  else if (n <? 2048)%N
  then String (ascii_of_N (192 + n / 64)) (String (ascii_of_N (128 + n mod 64)) "")
  else String (ascii_of_N (224 + n / 4096))
         (String (ascii_of_N (128 + (n / 64) mod 64))
            (String (ascii_of_N (128 + n mod 64)) "")).

Fixpoint lex (st : LexState) (s : string) : option (list Token) :=
  match s with
  | EmptyString =>
      match st with
      | LIdle => Some []
      | LWord w => Some [TWord w]
      | _ => None
      end
  | String c s' =>
      match st with
      | LStr acc =>
          if decide (c = ascii_of_N 34) then cons (TString acc) <$> lex LIdle s'
          else if decide (c = ascii_of_N 92) then lex (LEsc acc) s'
          else if (N_of_ascii c <? 32)%N then None
          else lex (LStr (snoc acc c)) s'
      | LEsc acc =>
          match unescape c with
          | Some c' => lex (LStr (snoc acc c')) s'
          | None => if decide (c = "u"%char) then lex (LHex acc []) s' else None
          end
      | LHex acc ds =>
          match hex_digit c with
          | None => None
          | Some d =>
              if decide (length ds = 3)
              then lex (LStr (acc +:+ utf8 (foldl (λ a x, 16 * a + x)%N 0%N (ds ++ [d])))) s'
              else lex (LHex acc (ds ++ [d])) s'
          end
      | LIdle | LWord _ =>
          let flush := match st with LWord w => [TWord w] | _ => [] end in
          let word := match st with LWord w => w | _ => "" end in
          if is_lexeme_char c then lex (LWord (snoc word c)) s'
          else match punct c with
               | Some t => (λ ts, flush ++ t :: ts) <$> lex LIdle s'
               | None =>
                   if is_ws c then (λ ts, flush ++ ts) <$> lex LIdle s'
                   else if decide (c = ascii_of_N 34)
                        then (λ ts, flush ++ ts) <$> lex (LStr "") s'
                        else None
               end
      end
  end.

(** Numbers: an optional minus sign, an integer part without a leading
    zero, an optional fraction and an optional exponent. *)
Fixpoint take_digits (s : string) : string * string :=
  match s with
  | String c s' =>
      if is_digit c then let '(d, r) := take_digits s' in (String c d, r)
      else ("", s)
  | EmptyString => ("", "")
  end.

Fixpoint digits_value (acc : Z) (s : string) : Z :=
  match s with
  | EmptyString => acc
  | String c s' => digits_value (10 * acc + Z.of_N (N_of_ascii c - 48)) s'
  end.

Definition valid_exponent (s : string) : bool :=
  match s with
  | String e r =>
      if decide (e = "e"%char ∨ e = "E"%char) then
        let r' := match r with
                  | String sg r2 =>
                      if decide (sg = "+"%char ∨ sg = "-"%char) then r2 else r
                  | EmptyString => r
                  end in
        let '(d, rest) := take_digits r' in
        bool_decide (d ≠ "" ∧ rest = "")
      else false
  | EmptyString => false
  end.

Definition valid_tail (s : string) : bool :=
  match s with
  | String dot r =>
      if decide (dot = "."%char) then
        let '(d, rest) := take_digits r in
        bool_decide (d ≠ "") && (bool_decide (rest = "") || valid_exponent rest)
      else valid_exponent s
  | EmptyString => true
  end.

Definition number (lexeme : string) : option JsVal :=
  let '(neg, body) :=
    match lexeme with
    | String c r => if decide (c = "-"%char) then (true, r) else (false, lexeme)
    | EmptyString => (false, lexeme)
    end in
  let '(d, rest) := take_digits body in
  match d with
  | EmptyString => None
  | String c0 more =>
      if decide (c0 = "0"%char ∧ more ≠ "") then None
      else if decide (rest = "")
      then Some (VNum (if neg then - digits_value 0 d else digits_value 0 d))
      else if valid_tail rest then Some (VFloat lexeme) else None
  end.

Definition word (lexeme : string) : option JsVal :=
  if decide (lexeme = "true") then Some (VBool true)
  else if decide (lexeme = "false") then Some (VBool false)
  else if decide (lexeme = "null") then Some VNull
  else number lexeme.

(** The parser: a stack of the arrays and objects being read and what
    the grammar allows next. *)
Inductive Frame :=
| FArr (done : list JsVal)
| FObj (done : Fields) (key : string).

Inductive Expect :=
| EValue
| EValueOrClose
| EKeyOrClose
| EKey (done : Fields)
| EColon (done : Fields) (key : string)
| EDone (v : JsVal).

Definition start_value (stack : list Frame) (t : Token)
  : option (list Frame * Expect) :=
  match t with
  | TString s => Some (stack, EDone (VStr s))
  | TWord w => v ← word w; Some (stack, EDone v)
  | TLBrack => Some (FArr [] :: stack, EValueOrClose)
  | TLBrace => Some (stack, EKeyOrClose)
  | _ => None
  end.

Definition step (st : list Frame * Expect) (t : Token)
  : option (list Frame * Expect) :=
  let '(stack, e) := st in
  match e with
  | EValue => start_value stack t
  | EValueOrClose =>
      match t, stack with
      | TRBrack, FArr _ :: rest => Some (rest, EDone (VArr []))
      | _, _ => start_value stack t
      end
  | EKeyOrClose =>
      match t with
      | TRBrace => Some (stack, EDone (VObj []))
      | TString k => Some (stack, EColon [] k)
      | _ => None
      end
  | EKey done =>
      match t with
      | TString k => Some (stack, EColon done k)
      | _ => None
      end
  | EColon done k =>
      match t with
      | TColon => Some (FObj done k :: stack, EValue)
      | _ => None
      end
  | EDone v =>
      match stack, t with
      | FArr done :: rest, TComma => Some (FArr (done ++ [v]) :: rest, EValue)
      | FArr done :: rest, TRBrack => Some (rest, EDone (VArr (done ++ [v])))
      | FObj done k :: rest, TComma => Some (rest, EKey (obj_set k v done))
      | FObj done k :: rest, TRBrace => Some (rest, EDone (VObj (obj_set k v done)))
      | _, _ => None
      end
  end.

Fixpoint run (st : list Frame * Expect) (ts : list Token) : option JsVal :=
  match ts with
  | [] => match st with
          | ([], EDone v) => Some v
          | _ => None
          end
  | t :: ts' => st' ← step st t; run st' ts'
  end.

Definition read (s : string) : option JsVal :=
  ts ← lex LIdle s; run ([], EValue) ts.

(** [JSON.parse(s)]; the text V8 puts in the error message is not
    modelled. *)
Definition parse (s : string) : Result JsVal :=
  match read s with
  | Some v => Ok v
  | None => Throw (ThrowError (new_SyntaxError "Unexpected token in JSON"))
  end.

End JSON.

(** ** Conversions of values *)

(** Whether the double that a number literal denotes is not zero: the
    literal has the value [m * 10 ^ k], which is rounded to zero when it is
    at most [2 ^ -1075], half the least positive double. *)
Definition float_nonzero (lit : string) : bool :=
  let unsigned := match lit with
                  | String c r => if decide (c = "-"%char) then r else lit
                  | EmptyString => lit
                  end in
  let '(int, rest) := JSON.take_digits unsigned in
  let '(frac, rest) := match rest with
                       | String c r =>
                           if decide (c = "."%char) then JSON.take_digits r else ("", rest)
                       | EmptyString => ("", rest)
                       end in
  let exponent :=
    match rest with
    | String _ (String sign r as signed) =>
        if decide (sign = "-"%char) then (- JSON.digits_value 0 r)%Z
        else if decide (sign = "+"%char) then JSON.digits_value 0 r
        else JSON.digits_value 0 signed
    | _ => 0%Z
    end in
  let m := JSON.digits_value 0 (int +:+ frac) in
  let k := (exponent - Z.of_nat (String.length frac))%Z in
  (0 <? m)%Z && ((0 <=? k)%Z || (10 ^ (- k) <? m * 2 ^ 1075)%Z).

(** [!!v] *)
Definition truthy (v : JsVal) : bool :=
  match v with
  | VUndefined | VNull => false
  | VBool b => b
  | VNum n => negb (n =? 0)%Z
  | VFloat lit => float_nonzero lit
  | VStr s => negb (bool_decide (s = ""))
  | VArr _ | VObj _ => true
  end.

Definition indexed {A} (l : list A) : list (string * A) :=
  imap (λ i x, (pretty (N.of_nat i), x)) l.

(** [Object.entries(v)]: own enumerable properties; [null] and [undefined]
    raise a [TypeError]. *)
Definition Object_entries (v : JsVal) : Result Fields :=
  match v with
  | VObj fields => Ok fields
  | VArr items => Ok (indexed items)
  | VStr s => Ok (indexed (VStr <$> chars s))
  | VUndefined | VNull =>
      Throw (ThrowError (new_TypeError "Cannot convert undefined or null to object"))
  | _ => Ok []
  end.

Definition Object_keys (v : JsVal) : Result (list string) :=
  es ← Object_entries v; Ok (es.*1).

(** The name Zod gives to the type of a value in its messages. *)
Definition getParsedType (v : JsVal) : string :=
  match v with
  | VUndefined => "undefined"
  | VNull => "null"
  | VBool _ => "boolean"
  | VNum _ | VFloat _ => "number"
  | VStr _ => "string"
  | VArr _ => "array"
  | VObj _ => "object"
  end.

(** [String(v)] for a value whose text does not depend on how a number is
    rounded: plain objects, strings, booleans, [null], [undefined],
    integers that a double holds exactly, and arrays of these ([printable]
    below). *)
Fixpoint js_String (v : JsVal) : string :=
  match v with
  | VUndefined => "undefined"
  | VNull => "null"
  | VBool true => "true"
  | VBool false => "false"
  | VNum n => pretty n
  | VFloat lit => lit
  | VStr s => s
  | VArr items =>
      join "," ((λ x, match x with
                      | VUndefined | VNull => ""
                      | _ => js_String x
                      end) <$> items)
  | VObj _ => "[object Object]"
  end.

Fixpoint printable (v : JsVal) : bool :=
  match v with
  | VNum n => bool_decide (- 9007199254740991 ≤ n ≤ 9007199254740991)%Z
  | VFloat _ => false
  | VArr items => forallb printable items
  | _ => true
  end.

(** ** Zod schemas *)

(** The schema kinds the converters tell apart with [instanceof]; every
    other kind (booleans, nullable and optional wrappers, unions, ...) is
    [ZodOther] with its type name.  A recursive schema is written with
    [z.lazy], a kind of its own, so what the converters descend into is a
    finite tree. *)
Inductive ZodType :=
| ZodString
| ZodNumber
| ZodArray (type : ZodType)
| ZodObject (shape : list (string * ZodType))
| ZodOther (typeName : string).

(** A schema as the pipeline uses it: its kind and its [parse] method,
    which returns the parsed value or throws. *)
Record ZodSchema := {
  zodType : ZodType;
  parse : JsVal → Result JsVal
}.

(** [new ZodError(issues)].  Zod renders the message as the JSON text of
    the issues; the model keeps their messages, joined. *)
Definition new_ZodError (errors : list ZodIssue) : JsError :=
  let msg := join "; " (issue_message <$> errors) in
  {| cls := IsZodError errors; err_name := "ZodError";
     err_message := msg; err_stack := "ZodError: " +:+ msg; err_props := [] |}.

(** [for (const key in shape) obj[key] = f(shape[key])] *)
Section for_in.
Context {A B : Type} (f : A → B).

Fixpoint for_in (shape : list (string * A)) (obj : list (string * B))
  : list (string * B) :=
  match shape with
  | [] => obj
  | (key, s) :: shape' => for_in shape' (obj_assign key (f s) obj)
  end.
End for_in.

Fixpoint zodToObject (schema : ZodType) : JsVal :=
  match schema with
  | ZodString => VStr "string"
  | ZodNumber => VStr "number"
  | ZodArray type => let innerType := zodToObject type in VArr [innerType]
  | ZodObject shape => VObj (for_in zodToObject shape [])
  | ZodOther _ => VStr "unknown"
  end.

Fixpoint zodToSwagger (schema : ZodType) : JsVal :=
  match schema with
  | ZodString => VObj [("type", VStr "string")]
  | ZodNumber => VObj [("type", VStr "number")]
  | ZodArray type =>
      let innerType := zodToSwagger type in
      VObj [("type", VStr "array"); ("items", innerType)]
  | ZodObject shape =>
      VObj [("type", VStr "object");
            ("properties", VObj (for_in zodToSwagger shape []))]
  | ZodOther _ => VObj [("type", VStr "unknown")]
  end.

(** The documentation shapes: [{type}] for a primitive or an unrecognised
    kind, [{type, items}] for an array, [{type, properties}] for an
    object. *)
Inductive DocShape : JsVal → Prop :=
| shape_leaf (t : string) :
    t ∈ ["string"; "number"; "unknown"] →
    DocShape (VObj [("type", VStr t)])
| shape_array (items : JsVal) :
    DocShape items →
    DocShape (VObj [("type", VStr "array"); ("items", items)])
| shape_object (props : Fields) :
    (∀ k v, (k, v) ∈ props → DocShape v) →
    DocShape (VObj [("type", VStr "object"); ("properties", VObj props)]).

(** The schema kinds without members. *)
Definition primitive (schema : ZodType) : bool :=
  match schema with
  | ZodString | ZodNumber | ZodOther _ => true
  | ZodArray _ | ZodObject _ => false
  end.

(** ** Path parameters *)

Definition createParamsObject (path : string) : Fields :=
  let paramsArray := match_params path in
  foldl (λ paramsObject param, obj_assign param (VStr "") paramsObject) [] paramsArray.

(** [z.object(shape).parse(value)] for a shape whose members are all
    [z.string().nullable()]: every member must be a string or [null]; the
    parsed object is built by assigning the members of the shape, in the
    order of its keys. *)
Definition parse_nullable_strings (shape : list string) (value : Fields)
  : Result Fields :=
  let issues :=
    flat_map (λ key,
      match default VUndefined (obj_get key value) with
      | VStr _ | VNull => []
      | VUndefined => [{| issue_path := [PKey key]; issue_message := "Required" |}]
      | v => [{| issue_path := [PKey key];
                 issue_message := "Expected string, received " +:+ getParsedType v |}]
      end) shape in
  match issues with
  | [] =>
      Ok (foldl (λ final key, obj_assign key (default VUndefined (obj_get key value)) final)
                [] shape)
  | _ => Throw (ThrowError (new_ZodError issues))
  end.

Definition createZodSchema (path : string) : Result Fields :=
  let paramsArray := createParamsObject path in
  let shape := foldl (λ acc key, obj_assign key tt acc) [] paramsArray.*1 in
  parse_nullable_strings shape.*1 paramsArray.

(** ** Routes *)

Inductive HttpMethod := GET | POST | PUT | PATCH | DELETE.

(** The values of [enum HttpMethod]. *)
Definition method_name (m : HttpMethod) : string :=
  match m with
  | GET => "get"
  | POST => "post"
  | PUT => "put"
  | PATCH => "patch"
  | DELETE => "delete"
  end.

Record IParameters := {
  p_in : string;
  p_name : string;
  p_schema : JsVal;
  p_required : bool
}.

Record TSwaggerObject := {
  o_name : string;
  o_type : string;
  o_required : bool;
  o_description : option string
}.

Record DetailResponse := {
  r_success : option JsVal;
  r_bad_request : option JsVal;
  r_internal_server_error : option JsVal
}.

Record SwaggerDetail := {
  d_tags : option (list string);
  d_summary : option string;
  d_description : option string;
  d_query : option (list IParameters);
  d_body : option (list TSwaggerObject);
  d_response : option DetailResponse;
  d_params : option (list IParameters)
}.

(** An Express middleware function; the code only ever reads its name.
    Middleware is not run by the model: the response object a handler is
    given stands for the one the middleware before it left. *)
Record RequestHandler := { fn_name : string }.

(** The parts of an Express request the pipeline reads.
    [req_revalidates body] tells whether the request is a conditional GET
    whose cache validators (the headers [If-None-Match] and
    [If-Modified-Since]) match a response with this body, of which Express
    computes the entity tag: besides the status of the response it is all
    that [req.fresh] depends on, and it is [false] on every body for a
    request without these headers.  The requests are made with one of the
    methods of [HttpMethod]; a HEAD request, which Express hands to a GET
    route and answers without a body, is not among them. *)
Record Request := {
  req_originalUrl : string;
  req_params : Fields;
  req_body : JsVal;
  req_query : JsVal;
  req_revalidates : JsVal → bool
}.

(** The response object before transmission: the status code that
    [res.status] sets, 200 on a fresh response. *)
Record Response := { statusCode : Z }.

Definition fresh_response : Response := {| statusCode := 200 |}.

(** What becomes of a handler's promise: it resolves with the
    [BaseResponse] object, it rejects with a thrown value, or it stays
    pending for ever. *)
Inductive Outcome :=
| Resolved (result : Fields)
| Rejected (error : Thrown)
| Pending.

(** A route handler: its text, as [handler.toString()] returns it, and its
    behaviour.  The handler receives the request and the raw response
    object, on which it may set the status; the handlers considered leave
    the sending of the response to the pipeline, as their return type
    [BaseResponse] intends. *)
Record RouteHandler := {
  source : string;
  run : Request → Response → Response * Outcome
}.

Record Schemas := {
  s_params : option ZodSchema;
  s_body : option ZodSchema;
  s_query : option ZodSchema;
  s_middleware : option RequestHandler;
  s_detail : option SwaggerDetail
}.

Record Route := {
  route_path : string;
  route_method : HttpMethod;
  route_handler : RouteHandler;
  route_schemas : option Schemas
}.

Record AppSwagger := {
  path : string;
  method : HttpMethod;
  detail : option SwaggerDetail;
  body : JsVal;
  query : JsVal;
  params : JsVal;
  response : JsVal
}.

(** ** The request pipeline *)

(** What a request handler did with a request: it sent a response with a
    body, the JSON text of [payload]; it sent a response without a body; it
    called [next(err)]; or it did neither and the request stays
    unanswered. *)
Inductive Served :=
| Transmit (status : Z) (payload : JsVal)
| Bodiless (status : Z)
| Next (err : Thrown) (res : Response)
| Unanswered.

Definition res_status (code : Z) (res : Response) : Response :=
  {| statusCode := code |}.

(** [req.fresh], read when a body is sent: the status is 2xx or 304 and
    the validators of the request match. *)
Definition req_fresh (req : Request) (res : Response) (payload : JsVal) : bool :=
  bool_decide ((200 ≤ statusCode res < 300)%Z ∨ statusCode res = 304%Z)
  && req_revalidates req payload.

(** The error Node raises for a status code outside 100..999. *)
Definition ERR_HTTP_INVALID_STATUS_CODE (code : Z) : JsError :=
  {| cls := OtherError; err_name := "RangeError";
     err_message := "Invalid status code: " +:+ pretty code;
     err_stack := "RangeError [ERR_HTTP_INVALID_STATUS_CODE]: Invalid status code: "
                  +:+ pretty code;
     err_props := [("code", VStr "ERR_HTTP_INVALID_STATUS_CODE")] |}.

(** The statuses that go out without a body: Express empties the body it
    sends with 204, 304 and (from version 4.18 on) 205, and Node writes no
    body after an informational status. *)
Definition bodiless (status : Z) : Prop :=
  (100 ≤ status ≤ 199)%Z ∨ status = 204%Z ∨ status = 205%Z ∨ status = 304%Z.

#[global] Instance bodiless_dec (status : Z) : Decision (bodiless status) :=
  or_dec _ _.

(** [res.send(body)] and [res.json(body)] of Express 4: a fresh request is
    answered 304; Node writes the head with the status code and refuses a
    code outside 100..999 with a [RangeError]; the body is the JSON text of
    [payload], or nothing with a status that has no body. *)
Definition res_send (req : Request) (payload : JsVal) (res : Response)
  : Result Served :=
  let status := if req_fresh req res payload then 304%Z else statusCode res in
  if decide (100 ≤ status ≤ 999)%Z
  then Ok (if decide (bodiless status)
           then Bodiless status
           else Transmit status payload)
  else Throw (ThrowError (ERR_HTTP_INVALID_STATUS_CODE status)).

(** [catchAsync(fn)]: a rejection of the promise [fn] returns is handed to
    [next]; while the promise is pending nothing happens.  [fn] yields the
    response object as it leaves it and, when its promise settles, what it
    did or threw. *)
Definition catchAsync
  (fn : Request → Response → Response * option (Result Served))
  (req : Request) (res : Response) : Served :=
  match fn req res with
  | (_, Some (Ok served)) => served
  | (res', Some (Throw err)) => Next err res'
  | (_, None) => Unanswered
  end.

Definition path_segment (seg : PathSeg) : JsVal :=
  match seg with
  | PKey k => VStr k
  | PIndex i => VNum (Z.of_N i)
  end.

(** [fromZodError(error).message] of zod-validation-error: the issues,
    each with its path, after a fixed prefix.  The keys of a path are taken
    to be identifiers, which the library joins with dots; it writes any
    other key between brackets and quotes. *)
Definition joinPath (p : list PathSeg) : string :=
  match p with
  | [PKey k] => k
  | [PIndex i] => pretty i
  | _ =>
      foldl (λ acc seg,
               match seg with
               | PIndex i => acc +:+ "[" +:+ pretty i +:+ "]"
               | PKey k => if decide (acc = "") then k else acc +:+ "." +:+ k
               end) "" p
  end.

Definition fromZodError (errors : list ZodIssue) : string :=
  "Validation error: "
  +:+ join "; " ((λ i, match issue_path i with
                       | [] => issue_message i
                       | [PIndex n] => issue_message i +:+ " at index " +:+ pretty n
                       | p => issue_message i +:+ " at " +:+ dquote
                              +:+ joinPath p +:+ dquote
                       end) <$> errors).

(** The global replace of every double quote by a single quote. *)
Fixpoint single_quotes (s : string) : string :=
  match s with
  | EmptyString => ""
  | String c s' =>
      String (if decide (c = ascii_of_N 34) then "'"%char else c) (single_quotes s')
  end.

Definition issue_detail (err : ZodIssue) : JsVal :=
  VObj [("path", VArr (path_segment <$> issue_path err));
        ("message", VStr (issue_message err))].

Definition validateParams (req : Request) (schemaObject : Fields) : Result unit :=
  forEach (λ _ key,
             if negb (truthy (default VUndefined (obj_get key (req_params req))))
             then Throw (ThrowError (new_Error ("Parameter '" +:+ key +:+ "' is required")))
             else Ok tt)
          tt schemaObject.*1.

Definition validateRequest (req : Request) (schemas : option Schemas) : Result unit :=
  _ ← match schemas ≫= s_params with
      | Some s => parse s (VObj (req_params req))
      | None => Ok VUndefined
      end;
  _ ← match schemas ≫= s_body with
      | Some s => parse s (req_body req)
      | None => Ok VUndefined
      end;
  _ ← match schemas ≫= s_query with
      | Some s => parse s (req_query req)
      | None => Ok VUndefined
      end;
  Ok tt.

(** [handleError(error, res, next)]; the response object knows its request
    ([res.req]), passed here as [req]. *)
Definition handleError (req : Request) (error : Thrown) (res : Response)
  : Result Served :=
  match error with
  | ThrowError e =>
      match cls e with
      | IsZodError errors =>
          let msg := single_quotes (fromZodError errors) in
          res_send req
                   (VObj [("success", VBool false);
                          ("message", VStr msg);
                          ("details", VArr (issue_detail <$> errors))])
                   (res_status 400 res)
      | _ =>
          res_send req
                   (VObj [("success", VBool false);
                          ("message", VStr "Internal server error");
                          ("traceStack", VStr (err_stack e))])
                   (res_status 500 res)
      end
  | ThrowValue _ => Ok (Next error res)
  end.

Definition preRequest (handler : RouteHandler) : Request → Response → Served :=
  catchAsync (λ req res,
    let '(res', settled) := run handler req res in
    match settled with
    | Resolved result =>
        (res', Some (res_send req
                       (VObj (spread [("success", VBool true);
                                      ("message", VStr "Request successful")]
                                     result)) res'))
    | Rejected error => (res', Some (Throw error))
    | Pending => (res', None)
    end).

(** The statements of [createHandler] that precede the call of the
    handler inside [try]. *)
Definition validation (schemas : option Schemas) (schemaObject : Fields)
  (req : Request) : Result unit :=
  _ ← validateRequest req schemas;
  if decide (length schemaObject.*1 ≠ 0)
  then validateParams req schemaObject
  else Ok tt.

(** The function [createHandler] returns.  It is [async]: what escapes
    its [catch] block is a rejection that nothing handles. *)
Definition createHandler (handler : RouteHandler) (schemas : option Schemas)
  (schemaObject : Fields) (req : Request) (res : Response) : Result Served :=
  match validation schemas schemaObject req with
  | Ok _ => Ok (preRequest handler req res)
  | Throw error => handleError req error res
  end.

(** The last layer [listen] installs.  [development] tells whether
    [process.env.NODE_ENV] is ['development']. *)
Definition globalErrorHandler (development : bool) (error : Thrown)
  (req : Request) (res : Response) : Result Served :=
  let statusCode := 500%Z in
  let statusCode :=
    match error with
    | ThrowError {| cls := IsHttpError code |} => code
    | _ => statusCode
    end in
  let '(statusCode, message) :=
    match error with
    | ThrowError e =>
        let message := err_message e in
        (if includes "not found" message then 404%Z else statusCode, message)
    | ThrowValue v =>
        (statusCode, "An unknown error occurred, " +:+ js_String v)
    end in
  let data :=
    VObj [("statusCode", VNum statusCode);
          ("message", VStr message);
          ("success", VBool false);
          ("data", VNull);
          ("traceStack",
           match error with
           | ThrowError e => if development then VStr (err_stack e) else VUndefined
           | ThrowValue _ => VUndefined
           end)] in
  res_send req data (res_status statusCode res).

(** The layer [listen] installs before the error handler: the answer to a
    request that no route took. *)
Definition unknownUrl (req : Request) (res : Response) : Result Served :=
  res_send req
           (VObj [("message", VStr "Unknown URL");
                  ("path", VStr (req_originalUrl req))])
           (res_status 404 res).

(** A route as bound on an Express router: the handler built by
    [createHandler] closes over the route's handler, schemas and the object
    derived from its path. *)
Record BoundRoute := {
  b_path : string;
  b_method : HttpMethod;
  b_middlewares : list RequestHandler;
  b_handler : RouteHandler;
  b_schemas : option Schemas;
  b_schemaObject : Fields
}.

(** How Express reads the argument of [next]: a falsy value and the string
    ['route'] are no error, the request goes on to the layers after the
    route; the string ['router'] makes it leave the router the route is
    bound on; any other value is an error. *)
Inductive Signal :=
| GoOn
| LeaveRouter
| Failure.

Definition next_signal (err : Thrown) : Signal :=
  match err with
  | ThrowError _ => Failure
  | ThrowValue v =>
      if negb (truthy v) then GoOn
      else match v with
           | VStr s =>
               if decide (s = "route") then GoOn
               else if decide (s = "router") then LeaveRouter
               else Failure
           | _ => Failure
           end
  end.

(** Express runs the bound handler.  An error handed to [next] skips every
    layer but the error-handling one, which is [globalErrorHandler] (the
    program installs no error-handling middleware of its own); with any
    other argument of [next] the request is left to the layers that follow
    the route.  [Throw] stands for an error that this pipeline does not
    answer. *)
Definition dispatch (development : bool) (b : BoundRoute) (req : Request)
  (res : Response) : Result Served :=
  match createHandler (b_handler b) (b_schemas b) (b_schemaObject b) req res with
  | Ok (Next err res') =>
      match next_signal err with
      | Failure => globalErrorHandler development err req res'
      | _ => Ok (Next err res')
      end
  | served => served
  end.

(** The application that [listen] starts, for a request that [b] is the
    only route to match: a request the route hands on reaches the fallback
    for unknown URLs.  A request that leaves the router of the route is not
    followed further: after a mounted sub-router it reaches the same
    fallback, after the router of the application itself Express answers
    with its own 404 page. *)
Definition serve (development : bool) (b : BoundRoute) (req : Request)
  (res : Response) : Result Served :=
  match dispatch development b req res with
  | Ok (Next err res') =>
      match next_signal err with
      | GoOn => unknownUrl req res'
      | _ => Ok (Next err res')
      end
  | served => served
  end.

(** ** The documentation assembler *)

Module SwaggerDoc.

(** The object schema generated from an example object, as written for
    the request body and for the 200 response: every entry [key: type]
    of the example becomes the property [key: {type}]. *)
Definition generatedSchema (example : JsVal) : Result JsVal :=
  entries ← Object_entries example;
  Ok (VObj [("type", VStr "object");
            ("properties",
             VObj (fromEntries
                     ((λ '(key, type), (key, VObj [("type", type)])) <$> entries)))]).

Definition json_content (schema : JsVal) : JsVal :=
  VObj [("application/json", VObj [("schema", schema)])].

Definition swaggerObject (o : TSwaggerObject) : JsVal :=
  VObj ([("name", VStr (o_name o)); ("type", VStr (o_type o));
         ("required", VBool (o_required o))]
        ++ match o_description o with
           | Some d => [("description", VStr d)]
           | None => []
           end).

Definition requestBody (endpoint : AppSwagger) : Result JsVal :=
  match detail endpoint ≫= d_body with
  | Some b => Ok (VArr (swaggerObject <$> b))
  | None =>
      keys ← Object_keys (body endpoint);
      if decide (0 < length keys)
      then schema ← generatedSchema (body endpoint);
           Ok (VObj [("required", VBool true); ("content", json_content schema)])
      else Ok VUndefined
  end.

Definition bare_failures : Fields :=
  [("400", VObj [("description", VStr "Bad Request")]);
   ("500", VObj [("description", VStr "Internal Server Error")])].

Definition responses (endpoint : AppSwagger) : Result JsVal :=
  match detail endpoint ≫= d_response with
  | Some r =>
      Ok (VObj [("200", VObj [("description", VStr "Successful response");
                              ("content", json_content (default VUndefined (r_success r)))]);
                ("400", VObj [("description", VStr "Bad Request");
                              ("content", json_content (default VUndefined (r_bad_request r)))]);
                ("500", VObj [("description", VStr "Internal Server Error");
                              ("content",
                               json_content (default VUndefined (r_internal_server_error r)))])])
  | None =>
      keys ← Object_keys (response endpoint);
      if decide (0 < length keys)
      then schema ← generatedSchema (response endpoint);
           Ok (VObj (("200", VObj [("description", VStr "Successful response");
                                   ("content", json_content schema)])
                     :: bare_failures))
      else Ok (VObj (("200", VObj [("description", VStr "Successful response");
                                   ("content",
                                    json_content (VObj [("type", VStr "object");
                                                        ("properties", VObj [])]))])
                     :: bare_failures))
  end.

Definition parameter (kind : string) (required : bool) (kv : string * JsVal) : JsVal :=
  VObj [("name", VStr kv.1); ("in", VStr kind); ("required", VBool required);
        ("schema", VObj [("type", kv.2)])].

Definition explicit_parameter (param : IParameters) : JsVal :=
  VObj [("name", VStr (p_name param)); ("in", VStr (p_in param));
        ("required", VBool (p_required param)); ("schema", p_schema param)].

(** [detail?.params ? ... : A || B || []]: the conditional binds weaker
    than [||], and [||] yields its left operand when that is truthy. *)
Definition parameters (endpoint : AppSwagger) : Result JsVal :=
  match detail endpoint ≫= d_params with
  | Some ps => Ok (VArr (explicit_parameter <$> ps))
  | None =>
      fromParams ← Object_entries (params endpoint);
      let a := VArr (parameter "path" true <$> fromParams) in
      if truthy a then Ok a
      else
        fromQuery ← Object_entries (query endpoint);
        let b := VArr (parameter "query" false <$> fromQuery) in
        if truthy b then Ok b else Ok (VArr [])
  end.

Definition operation (endpoint : AppSwagger) : Result JsVal :=
  requestBody ← requestBody endpoint;
  responses ← responses endpoint;
  parameters ← parameters endpoint;
  Ok (VObj
        [("summary",
          VStr (match detail endpoint ≫= d_summary with
                | Some s =>
                    if decide (s = "")
                    then toUpperCase (method_name (method endpoint)) +:+ " " +:+ path endpoint
                    else s
                | None => toUpperCase (method_name (method endpoint)) +:+ " " +:+ path endpoint
                end));
         ("description",
          match detail endpoint ≫= d_description with
          | Some d => VStr d
          | None => VUndefined
          end);
         ("tags",
          VArr (VStr <$> default ["default"] (detail endpoint ≫= d_tags)));
         ("requestBody", requestBody);
         ("parameters", parameters);
         ("responses", responses)]).

(** The loop of [apiDoc]: [paths[path][method] = operation].  For a path
    that names a member of [Object.prototype] the code reads and writes that
    member instead of a property of [paths]; a later read through [paths]
    finds the operation there all the same, which is what the association
    list records. *)
Definition add_endpoint (paths : list (string * Fields)) (endpoint : AppSwagger)
  : Result (list (string * Fields)) :=
  let paths := match obj_get (path endpoint) paths with
               | Some _ => paths
               | None => obj_set (path endpoint) [] paths
               end in
  op ← operation endpoint;
  Ok (obj_set (path endpoint)
        (obj_set (method_name (method endpoint)) op
           (default [] (obj_get (path endpoint) paths)))
        paths).

(** [new SwaggerDoc().apiDoc(swaggerPath)] *)
Definition apiDoc (swaggerPath : list AppSwagger) : Result JsVal :=
  paths ← forEach add_endpoint [] swaggerPath;
  Ok (VObj
        [("definition",
          VObj [("info", VObj [("title", VStr "API Documentation");
                               ("version", VStr "1.0.0")]);
                ("openapi", VStr "3.0.0");
                ("paths", VObj (prod_map id VObj <$> paths))]);
         ("apis", VArr []);
         ("swaggerDefinition", VUndefined)]).

End SwaggerDoc.

(** ** Routers and the server *)

(** The methods below run in the error monad: an exception aborts the call
    and the program that made it, and the partly updated state is not
    kept. *)

(** [class AppRouter]: the routes declared on it and the Express router it
    owns, on which [register] binds them. *)
Record AppRouter := {
  router_routes : list Route;
  router_instance : list BoundRoute
}.

(** A layer of the Express application stack: a layer Express or the
    server installs on its own, a middleware function, a mounted sub-router,
    a bound route, or the documentation UI under [/api-docs] with the
    document it was set up with (the options [apiDoc] returns, which
    swagger-jsdoc turns into the specification).  [LSwaggerUi] stands for
    the layers of one mount of the UI, those of [swaggerUi.serve] and the
    one of [swaggerUi.setup], none of which is named [SwaggerInitUi]. *)
Inductive Layer :=
| LBuiltin (name : string)
| LUse (mount : string) (fn : RequestHandler)
| LRouter (mount : string) (router : nat)
| LRoute (b : BoundRoute)
| LSwaggerUi (spec : JsVal).

(** [layer.name] *)
Definition layer_name (l : Layer) : string :=
  match l with
  | LBuiltin name => name
  | LUse _ fn => fn_name fn
  | LRouter _ _ => "router"
  | LRoute _ => "bound dispatch"
  | LSwaggerUi _ => "swaggerUi"
  end.

(** [class AppServer extends BaseRouter] *)
Record AppServer := {
  routes : list Route;
  swaggerPath : list AppSwagger;
  app : list Layer
}.

(** The server and the sub-routers, which are shared objects: a router is
    named by its index in [heap]. *)
Record World := {
  server : AppServer;
  heap : list AppRouter
}.

(** [new AppServer()]: Express with the body parsers, the metrics
    middleware and the anonymous transaction-id middleware.  The layers
    carry the names of the functions installed, [<anonymous>] for a
    function without a name; none is [SwaggerInitUi]. *)
Definition new_AppServer : World :=
  {| server := {| routes := []; swaggerPath := [];
                  app := [LBuiltin "query"; LBuiltin "expressInit";
                          LBuiltin "jsonParser"; LBuiltin "urlencodedParser";
                          LBuiltin "middleware"; LBuiltin "<anonymous>"] |};
     heap := [] |}.

(** [new AppRouter()], with an Express router of its own: the reference of
    the new router is [length heap]. *)
Definition new_AppRouter (w : World) : World :=
  {| server := server w;
     heap := heap w ++ [{| router_routes := []; router_instance := [] |}] |}.

(** [BaseRouter.addRoute], behind [get], [post], [put], [patch] and
    [delete]. *)
Definition addRoute (method : HttpMethod) (path : string) (handler : RouteHandler)
  (schemas : option Schemas) (routes : list Route) : list Route :=
  routes ++ [{| route_path := path; route_method := method;
                route_handler := handler; route_schemas := schemas |}].

(** The sub-router behind a reference, for a call of its method [reading];
    a reference to nothing stands for [undefined]. *)
Definition the_router (reading : string) (w : World) (router : nat)
  : Result AppRouter :=
  match heap w !! router with
  | Some r => Ok r
  | None =>
      Throw (ThrowError
               (new_TypeError
                  ("Cannot read properties of undefined (reading '" +:+ reading +:+ "')")))
  end.

Definition bind_route (route : Route) (schemaObject : Fields) : BoundRoute :=
  {| b_path := route_path route;
     b_method := route_method route;
     b_middlewares := match route_schemas route ≫= s_middleware with
                      | Some m => [m]
                      | None => []
                      end;
     b_handler := route_handler route;
     b_schemas := route_schemas route;
     b_schemaObject := schemaObject |}.

(** The body of the loop of [register]: the route is bound on the Express
    router of [r].  Express compiles the path of a route or of a mount into
    a regular expression when it creates the layer, and throws on a path
    that is no pattern; the compiler is not modelled, here every path is
    bound.  So a call that completes in the code completes here with the
    same result, and not the other way round. *)
Definition register_route (r : AppRouter) (route : Route) : Result AppRouter :=
  schemaObject ← createZodSchema (route_path route);
  Ok {| router_routes := router_routes r;
        router_instance := router_instance r ++ [bind_route route schemaObject] |}.

(** [AppRouter.register] *)
Definition register (r : AppRouter) : Result AppRouter :=
  forEach register_route r (router_routes r).

(** The text taken from the handler:
    [handler.toString().split('return')[1]] with its two replacements. *)
Definition jsonString (handler : RouteHandler) : Result string :=
  match split "return" (source handler) !! 1 with
  | Some piece => Ok (quote_keys (replace_first "}}" "}" piece))
  | None =>
      Throw (ThrowError
               (new_TypeError "Cannot read properties of undefined (reading 'replace')"))
  end.

(** [AppServer.parseJson] *)
Definition parseJson (str : string) : JsVal :=
  match JSON.parse str with
  | Ok v => v
  | Throw _ => VObj []
  end.

Definition shape_of (schema : option ZodSchema) : JsVal :=
  match schema with
  | Some s => zodToObject (zodType s)
  | None => VObj []
  end.

(** The body of the first loop of [router]: the documentation entry of a
    route of the sub-router, under the mount path. *)
Definition document_route (path : string) (swaggerPath : list AppSwagger) (r : Route)
  : Result (list AppSwagger) :=
  jsonString ← jsonString (route_handler r);
  let schemaObject :=
    {| path := path +:+ route_path r;
       method := route_method r;
       detail := route_schemas r ≫= s_detail;
       body := shape_of (route_schemas r ≫= s_body);
       query := shape_of (route_schemas r ≫= s_query);
       params := shape_of (route_schemas r ≫= s_params);
       response := parseJson jsonString |} in
  Ok (swaggerPath ++ [schemaObject]).

(** [AppServer.router(path, router, ...middleware)] *)
Definition AppServer_router (path : string) (router : nat)
  (middleware : list RequestHandler) (w : World) : Result World :=
  r ← the_router "register" w router;
  swaggerPath' ← forEach (document_route path) (swaggerPath (server w)) (router_routes r);
  r' ← register r;
  Ok {| server := {| routes := [];
                     swaggerPath := swaggerPath';
                     app := app (server w) ++ (LUse path <$> middleware)
                            ++ [LRouter path router] |};
        heap := <[router := r']> (heap w) |}.

(** [AppServer.use(...middleware)]; Express refuses an empty call. *)
Definition AppServer_use (middleware : list RequestHandler) (w : World) : Result World :=
  match middleware with
  | [] => Throw (ThrowError (new_TypeError "app.use() requires a middleware function"))
  | _ =>
      Ok {| server := {| routes := routes (server w);
                         swaggerPath := swaggerPath (server w);
                         app := app (server w) ++ (LUse "/" <$> middleware) |};
            heap := heap w |}
  end.

(** The first loop of [listen]: every route still on the server gets its
    documentation entry and is bound on the application. *)
Definition listen_bind (srv : AppServer) (route : Route) : Result AppServer :=
  schemaObject ← createZodSchema (route_path route);
  jsonString ← jsonString (route_handler route);
  response ← JSON.parse jsonString;
  let schema :=
    {| path := route_path route;
       method := route_method route;
       detail := route_schemas route ≫= s_detail;
       body := shape_of (route_schemas route ≫= s_body);
       query := shape_of (route_schemas route ≫= s_query);
       params := shape_of (route_schemas route ≫= s_params);
       response := response |} in
  Ok {| routes := routes srv;
        swaggerPath := swaggerPath srv ++ [schema];
        app := app srv ++ [LRoute (bind_route route schemaObject)] |}.

(** The second loop: one documentation document per layer named
    [SwaggerInitUi], each mounted under [/api-docs].  The loop runs over the
    layers present when it starts. *)
Definition listen_document (srv : AppServer) (middleware : Layer) : Result AppServer :=
  if decide (layer_name middleware = "SwaggerInitUi")
  then swaggerOptions ← SwaggerDoc.apiDoc (swaggerPath srv);
       Ok {| routes := routes srv;
             swaggerPath := swaggerPath srv;
             app := app srv ++ [LSwaggerUi swaggerOptions] |}
  else Ok srv.

(** [AppServer.listen], up to the point where the HTTP server starts: the
    lists are cleared, then the fallback for unknown URLs and the global
    error handler are installed. *)
Definition AppServer_listen (w : World) : Result World :=
  bound ← forEach listen_bind (server w) (routes (server w));
  documented ← forEach listen_document bound (app bound);
  Ok {| server := {| routes := [];
                     swaggerPath := [];
                     app := app documented
                            ++ [LBuiltin "<anonymous>"; LBuiltin "globalErrorHandler"] |};
        heap := heap w |}.

(** The calls a program makes before [listen]: [new AppRouter()], a route
    declared on the server or on a sub-router, [app.use] of middleware
    functions, [app.router], and [register] called on a sub-router
    directly. *)
Inductive Target := OnServer | OnRouter (router : nat).

Inductive Call :=
| CallNewRouter
| CallRoute (on : Target) (method : HttpMethod) (path : string)
    (handler : RouteHandler) (schemas : option Schemas)
| CallUse (middleware : list RequestHandler)
| CallRouter (path : string) (router : nat) (middleware : list RequestHandler)
| CallRegister (router : nat).

Definition call (w : World) (c : Call) : Result World :=
  match c with
  | CallNewRouter => Ok (new_AppRouter w)
  | CallRoute OnServer m p h s =>
      Ok {| server := {| routes := addRoute m p h s (routes (server w));
                         swaggerPath := swaggerPath (server w);
                         app := app (server w) |};
            heap := heap w |}
  | CallRoute (OnRouter router) m p h s =>
      r ← the_router (method_name m) w router;
      Ok {| server := server w;
            heap := <[router := {| router_routes := addRoute m p h s (router_routes r);
                                   router_instance := router_instance r |}]> (heap w) |}
  | CallUse middleware => AppServer_use middleware w
  | CallRouter p router middleware => AppServer_router p router middleware w
  | CallRegister router =>
      r ← the_router "register" w router;
      r' ← register r;
      Ok {| server := server w; heap := <[router := r']> (heap w) |}
  end.

Definition program (calls : list Call) : Result World :=
  forEach call new_AppServer calls.

(** ** The transaction header *)

(** The header that carries the correlation identifier. *)
Definition transaction : string := "x-transaction-id".

(** The middleware the constructor of [AppServer] installs on every
    request: a request whose header is missing or empty gets
    [default-<uuid>], [uuid] being the identifier the generator yields for
    this request.  Header values are strings. *)
Definition transaction_middleware (uuid : string) (headers : gmap string string)
  : gmap string string :=
  if decide (default "" (headers !! transaction) = "")
  then <[transaction := "default-" +:+ uuid]> headers
  else headers.

(** ** Observations on responses and registrations *)

Definition field (k : string) (v : JsVal) : option JsVal :=
  match v with
  | VObj fields => obj_get k fields
  | _ => None
  end.

(** The answer of [handleError] to an error that is not a validation
    error: status 500, [success: false], the fixed message and a trace
    stack. *)
Definition internal_server_error (served : Result Served) : Prop :=
  ∃ payload stack,
    served = Ok (Transmit 500 payload)
    ∧ field "success" payload = Some (VBool false)
    ∧ field "message" payload = Some (VStr "Internal server error")
    ∧ field "traceStack" payload = Some (VStr stack).

(** A thrown value that is neither a [ZodError] nor an [HttpError]. *)
Definition undeclared (error : Thrown) : Prop :=
  match error with
  | ThrowError e => cls e = OtherError
  | ThrowValue _ => True
  end.

(** An entry that [apiDoc] can document: for the request body, the
    responses and the parameters, either the detail declares them or the
    derived shape is a value [Object.entries] accepts (anything but [null]
    and [undefined]). *)
Definition documentable (endpoint : AppSwagger) : Prop :=
  (is_Some (detail endpoint ≫= d_body) ∨ ∃ es, Object_entries (body endpoint) = Ok es)
  ∧ (is_Some (detail endpoint ≫= d_response)
     ∨ ∃ es, Object_entries (response endpoint) = Ok es)
  ∧ (is_Some (detail endpoint ≫= d_params)
     ∨ ∃ es, Object_entries (params endpoint) = Ok es).

(** The operation a document holds under a path and a method. *)
Definition documented_operation (doc : JsVal) (path method : string) : option JsVal :=
  definition ← field "definition" doc;
  paths ← field "paths" definition;
  methods ← field path paths;
  field method methods.

(** The key of a documentation entry and of a bound route: full path and
    method. *)
Definition entry_key (e : AppSwagger) : string * HttpMethod := (path e, method e).

(** The routes bound on the Express router of a sub-router. *)
Definition instance_of (heap : list AppRouter) (router : nat) : list BoundRoute :=
  default [] (router_instance <$> heap !! router).

Definition layer_routes (heap : list AppRouter) (l : Layer)
  : list (string * HttpMethod) :=
  match l with
  | LRoute b => [(b_path b, b_method b)]
  | LRouter mount router =>
      (λ b, (mount +:+ b_path b, b_method b)) <$> instance_of heap router
  | _ => []
  end.

(** The routes the application dispatches to, in the order of its stack. *)
Definition bound_routes (w : World) : list (string * HttpMethod) :=
  flat_map (layer_routes (heap w)) (app (server w)).

(** The documents handed to the documentation UI. *)
Definition assembled (w : World) : list JsVal :=
  flat_map (λ l, match l with LSwaggerUi spec => [spec] | _ => [] end)
           (app (server w)).

Definition triggers (layers : list Layer) : nat :=
  length (filter (λ l, layer_name l = "SwaggerInitUi") layers).

(** The state of a registration in which [register] has run on every
    router of [registered], and on no other: the documentation entries
    follow the bound routes, only registered routers are mounted, a router
    that was never registered has nothing bound, and no document has been
    assembled yet. *)
Definition consistent (registered : list nat) (w : World) : Prop :=
  entry_key <$> swaggerPath (server w) = bound_routes w
  ∧ (∀ mount router, LRouter mount router ∈ app (server w) → router ∈ registered)
  ∧ (∀ router r, router ∉ registered → heap w !! router = Some r → router_instance r = [])
  ∧ assembled w = [].

(** The routers on which a program runs [register], through [app.router]
    or directly, in order. *)
Definition registrations (calls : list Call) : list nat :=
  flat_map (λ c, match c with
                 | CallRouter _ router _ | CallRegister router => [router]
                 | _ => []
                 end) calls.

(** ** The example application *)

(** The schemas that [z.string()], [z.number()], [z.array(inner)] and
    [z.object(shape)] build: [parse] checks the structure and reports every
    mismatch with its path.  Kinds outside these four accept any value
    here. *)
Fixpoint z_issues (schema : ZodType) (at_path : list PathSeg) (v : JsVal)
  : list ZodIssue :=
  let mismatch expected :=
    [{| issue_path := at_path;
        issue_message :=
          match v with
          | VUndefined => "Required"
          | _ => "Expected " +:+ expected +:+ ", received " +:+ getParsedType v
          end |}] in
  match schema, v with
  | ZodString, VStr _ => []
  | ZodString, _ => mismatch "string"
  | ZodNumber, (VNum _ | VFloat _) => []
  | ZodNumber, _ => mismatch "number"
  | ZodArray type, VArr items =>
      concat (imap (λ i x, z_issues type (at_path ++ [PIndex (N.of_nat i)]) x) items)
  | ZodArray _, _ => mismatch "array"
  | ZodObject shape, VObj fields =>
      flat_map (λ '(key, s),
                  z_issues s (at_path ++ [PKey key])
                           (default VUndefined (obj_get key fields)))
               shape
  | ZodObject _, _ => mismatch "object"
  | ZodOther _, _ => []
  end.

Definition z (schema : ZodType) : ZodSchema :=
  {| zodType := schema;
     parse := λ v, match z_issues schema [] v with
                   | [] => Ok v
                   | issues => Throw (ThrowError (new_ZodError issues))
                   end |}.

(** The program of [src/index.ts], up to [app.listen]. *)
Module Example.

Definition paramsSchema : ZodSchema := z (ZodObject [("id", ZodString)]).
Definition querySchema : ZodSchema := z (ZodObject [("username", ZodString)]).
Definition bodySchema : ZodSchema := z (ZodObject [("content", ZodString)]).

Definition SwaggerInitUi : RequestHandler := {| fn_name := "SwaggerInitUi" |}.

Definition only (params body query : option ZodSchema) : option Schemas :=
  Some {| s_params := params; s_body := body; s_query := query;
          s_middleware := None; s_detail := None |}.

Definition get_profile : RouteHandler :=
  {| source := "async ({ query, res, req }) => {
            console.log(query.username)
            return { data: 'profile' }
        }";
     run := λ _ res, (res, Resolved [("data", VStr "profile")]) |}.

Definition post_profile : RouteHandler :=
  {| source := "async ({ body }) => {
        return { data: 'profile' }
    }";
     run := λ _ res, (res, Resolved [("data", VStr "profile")]) |}.

Definition post_profiles : RouteHandler :=
  {| source := "async ({ body }) => {
        console.log(body.content)
        return { data: 'profile' }
    }";
     run := λ _ res, (res, Resolved [("data", VStr "profile")]) |}.

Definition get_profile_id : RouteHandler :=
  {| source := "async ({ params }) => {
            return { data: { id: params.id } }
        }";
     run := λ req res,
       (res, Resolved [("data",
                        VObj [("id", default VUndefined
                                       (obj_get "id" (req_params req)))])]) |}.

Definition get_profile_query : RouteHandler :=
  {| source := "async ({ query }) => {
            return { data: 'profile' }
        }";
     run := λ _ res, (res, Resolved [("data", VStr "profile")]) |}.

Definition profile_detail : SwaggerDetail :=
  {| d_tags := Some ["profile"];
     d_summary := Some "Get profile by id";
     d_description := Some "Get profile by id";
     d_query := None;
     d_body := None;
     d_response :=
       Some {| r_success :=
                 Some (VObj [("type", VStr "object");
                             ("properties",
                              VObj [("id", VObj [("type", VStr "string")])])]);
               r_bad_request :=
                 Some (VObj [("type", VStr "object");
                             ("properties",
                              VObj [("message", VObj [("type", VStr "string")])])]);
               r_internal_server_error := None |};
     d_params :=
       Some [{| p_in := "path"; p_name := "id";
                p_schema := VObj [("type", VStr "string")];
                p_required := true |}] |}.

Definition declarations : list Call :=
  [CallUse [SwaggerInitUi];
   CallRoute OnServer GET "/profile" get_profile (only None None (Some querySchema));
   CallRoute OnServer POST "/profile" post_profile None;
   CallNewRouter;
   CallRoute (OnRouter 0) POST "/profiles" post_profiles
     (only None (Some bodySchema) None);
   CallRoute (OnRouter 0) GET "/profile/:id" get_profile_id
     (Some {| s_params := Some paramsSchema; s_body := None; s_query := None;
              s_middleware := Some {| fn_name := "middleware" |};
              s_detail := Some profile_detail |});
   CallRoute (OnRouter 0) GET "/profile" get_profile_query
     (only None None (Some querySchema))].

Definition index_ts : list Call := declarations ++ [CallRouter "/api" 0 []].

(** The same program without [app.use(SwaggerInitUi)]. *)
Definition without_trigger : list Call := tail index_ts.

(** The same program with the sub-router mounted a second time, as an
    earlier version of [src/index.ts] does. *)
Definition mounted_twice : list Call := index_ts ++ [CallRouter "/auth" 0 []].

(** The same program with [router.register()] called before the mount. *)
Definition registered_before_mount : list Call :=
  declarations ++ [CallRegister 0; CallRouter "/api" 0 []].

(** The document an assembly that does not throw yields. *)
Definition state_doc (m : Result JsVal) : JsVal :=
  match m with
  | Ok doc => doc
  | Throw _ => VUndefined
  end.

(** The state a computation that does not throw ends in. *)
Definition state (m : Result World) : World :=
  match m with
  | Ok w => w
  | Throw _ => new_AppServer
  end.

(** The states before and after [app.router('/api', router)]. *)
Definition declared : World := state (program declarations).
Definition mounted : World := state (AppServer_router "/api" 0 [] declared).

(** A route with an optional dynamic segment and no schemas. *)
Definition get_item : RouteHandler :=
  {| source := "async ({ params }) => { return {data: 1}}";
     run := λ _ res, (res, Resolved [("data", VNum 1)]) |}.

Definition item_route : Route :=
  {| route_path := "/items/:id?"; route_method := GET;
     route_handler := get_item; route_schemas := None |}.

(** A server with the documentation trigger and one route of its own,
    whose handler text is JSON once repaired, pending when [listen] is
    called. *)
Definition with_pending : list Call :=
  [CallUse [SwaggerInitUi]; CallRoute OnServer GET "/items/:id?" get_item None].

Definition pending : World := state (program with_pending).

Definition no_params : Request :=
  {| req_originalUrl := "/items"; req_params := []; req_body := VObj [];
     req_query := VObj []; req_revalidates := λ _, false |}.

(** Handlers that fail, and one that sets the status itself. *)
Definition throws (e : JsError) : RouteHandler :=
  {| source := "async () => { throw error }";
     run := λ _ res, (res, Rejected (ThrowError e)) |}.

Definition created : RouteHandler :=
  {| source := "async ({ res }) => { res.status(201); return {statusCode: 201}}";
     run := λ _ res, (res_status 201 res,
                      Resolved [("statusCode", VNum 201)]) |}.

(** A handler that rejects with any value, and one that answers without
    content. *)
Definition rejects (error : Thrown) : RouteHandler :=
  {| source := "async () => { throw error }";
     run := λ _ res, (res, Rejected error) |}.

Definition no_content : RouteHandler :=
  {| source := "async ({ res }) => { res.status(204); return {}}";
     run := λ _ res, (res_status 204 res, Resolved []) |}.

(** An error of a class defined outside the module that carries a status
    code of its own. *)
Definition forbidden : JsError :=
  {| cls := OtherError; err_name := "ForbiddenError"; err_message := "forbidden";
     err_stack := "ForbiddenError: forbidden";
     err_props := [("statusCode", VNum 403)] |}.

(** A request for [/profile], and the same request sent with the header
    [If-None-Match: *], which every response matches. *)
Definition get_profile_request : Request :=
  {| req_originalUrl := "/profile"; req_params := []; req_body := VObj [];
     req_query := VObj []; req_revalidates := λ _, false |}.

Definition conditional_request : Request :=
  {| req_originalUrl := "/profile"; req_params := []; req_body := VObj [];
     req_query := VObj []; req_revalidates := λ _, true |}.

(** A request that posts a profile. *)
Definition post_profiles_request : Request :=
  {| req_originalUrl := "/profiles"; req_params := [];
     req_body := VObj [("content", VStr "hello")];
     req_query := VObj []; req_revalidates := λ _, false |}.

(** A handler whose promise never settles. *)
Definition hangs : RouteHandler :=
  {| source := "() => new Promise(() => {})";
     run := λ _ res, (res, Pending) |}.

Definition bound (handler : RouteHandler) : BoundRoute :=
  bind_route {| route_path := "/profile"; route_method := GET;
                route_handler := handler; route_schemas := None |} [].

End Example.

(** * Properties *)

(** ** The error monad and loops *)

Lemma bind_Ok {A B} (m : Result A) (f : A → Result B) (b : B) :
  m ≫= f = Ok b ↔ ∃ a, m = Ok a ∧ f a = Ok b.
Proof.
  destruct m as [a|e]; simpl; split.
  - intros H. exists a. split; [reflexivity | exact H].
  - intros (a' & [= <-] & H). exact H.
  - intros [=].
  - intros (a' & [=] & _).
Qed.

(** ** Objects *)

Lemma obj_get_replace {A} (k k' : string) (v : A) (o : list (string * A)) :
  obj_get k (obj_replace k' v o)
  = if decide (k = k') then (λ _, v) <$> obj_get k o else obj_get k o.
Proof.
  induction o as [|[k0 v0] o IH]; simpl.
  - destruct (decide (k = k')); reflexivity.
  - destruct (decide (k' = k0)) as [->|Hne]; simpl.
    + destruct (decide (k = k0)); reflexivity.
    + destruct (decide (k = k0)) as [->|Hne'].
      * rewrite decide_False by congruence. reflexivity.
      * exact IH.
Qed.

Lemma obj_get_insert {A} (k k' : string) (v : A) (o : list (string * A)) :
  obj_get k' o = None →
  obj_get k (obj_insert k' v o) = if decide (k = k') then Some v else obj_get k o.
Proof.
  induction o as [|[k0 v0] o IH]; simpl; intros Hfresh.
  - reflexivity.
  - destruct (decide (k' = k0)) as [->|Hne]; [discriminate|].
    destruct (enumerated_before k' k0); simpl.
    + reflexivity.
    + destruct (decide (k = k0)) as [->|Hne'].
      * rewrite decide_False by congruence. reflexivity.
      * exact (IH Hfresh).
Qed.

Lemma obj_get_set {A} (k k' : string) (v : A) (o : list (string * A)) :
  obj_get k (obj_set k' v o) = if decide (k = k') then Some v else obj_get k o.
Proof.
  unfold obj_set. destruct (obj_get k' o) as [v0|] eqn:Hk'.
  - rewrite obj_get_replace. destruct (decide (k = k')) as [->|]; [|reflexivity].
    rewrite Hk'. reflexivity.
  - apply obj_get_insert. exact Hk'.
Qed.

Lemma obj_get_None {A} (k : string) (o : list (string * A)) :
  obj_get k o = None ↔ k ∉ o.*1.
Proof.
  induction o as [|[k' v'] o IH]; simpl.
  - split; [intros _; apply not_elem_of_nil | reflexivity].
  - destruct (decide (k = k')) as [->|Hne].
    + split; [discriminate|]. intros H. exfalso. apply H. left.
    + rewrite IH. rewrite not_elem_of_cons. tauto.
Qed.

Lemma obj_replace_keys {A} (k : string) (v : A) (o : list (string * A)) :
  (obj_replace k v o).*1 = o.*1.
Proof.
  induction o as [|[k' v'] o IH]; simpl; [reflexivity|].
  destruct (decide (k = k')) as [->|]; simpl; [reflexivity|]. f_equal. exact IH.
Qed.

Lemma obj_insert_keys {A} (k : string) (v : A) (o : list (string * A)) :
  (obj_insert k v o).*1 = keys_insert k o.*1.
Proof.
  induction o as [|[k' v'] o IH]; simpl; [reflexivity|].
  destruct (enumerated_before k k'); simpl; [reflexivity|]. f_equal. exact IH.
Qed.

Lemma obj_set_keys {A} (k : string) (v : A) (o : list (string * A)) :
  (obj_set k v o).*1 = if decide (k ∈ o.*1) then o.*1 else keys_insert k o.*1.
Proof.
  unfold obj_set. destruct (obj_get k o) as [v0|] eqn:Hk.
  - rewrite decide_True; [apply obj_replace_keys|].
    destruct (decide (k ∈ o.*1)) as [|Hn]; [assumption|].
    apply obj_get_None in Hn. congruence.
  - rewrite decide_False by (apply obj_get_None; exact Hk). apply obj_insert_keys.
Qed.

Lemma keys_insert_elem_of (k k' : string) (ks : list string) :
  k ∈ keys_insert k' ks ↔ k = k' ∨ k ∈ ks.
Proof.
  induction ks as [|k0 ks IH]; simpl.
  - rewrite list_elem_of_singleton. split; [intros H; left; exact H|].
    intros [H|H]; [exact H | apply elem_of_nil in H; contradiction].
  - destruct (enumerated_before k' k0).
    + rewrite !elem_of_cons. tauto.
    + rewrite !elem_of_cons, IH. tauto.
Qed.

Lemma keys_insert_NoDup (k : string) (ks : list string) :
  k ∉ ks → NoDup ks → NoDup (keys_insert k ks).
Proof.
  induction ks as [|k0 ks IH]; simpl; intros Hk Hnd.
  - apply NoDup_singleton.
  - destruct (enumerated_before k k0).
    + apply NoDup_cons. split; assumption.
    + apply not_elem_of_cons in Hk as [Hne Hk]. apply NoDup_cons in Hnd as [Hk0 Hnd].
      apply NoDup_cons. split; [|apply IH; assumption].
      rewrite keys_insert_elem_of. intros [->|H]; [apply Hne; reflexivity | contradiction].
Qed.

Lemma obj_set_keys_elem_of {A} (k k' : string) (v : A) (o : list (string * A)) :
  k ∈ (obj_set k' v o).*1 ↔ k = k' ∨ k ∈ o.*1.
Proof.
  rewrite obj_set_keys. destruct (decide (k' ∈ o.*1)) as [Hin|Hnin].
  - split; [intros H; right; exact H | intros [->|H]; assumption].
  - apply keys_insert_elem_of.
Qed.

Lemma obj_set_NoDup {A} (k : string) (v : A) (o : list (string * A)) :
  NoDup o.*1 → NoDup (obj_set k v o).*1.
Proof.
  intros Hnd. rewrite obj_set_keys. destruct (decide (k ∈ o.*1)); [exact Hnd|].
  apply keys_insert_NoDup; assumption.
Qed.

Lemma obj_replace_elem_of {A} (k k' : string) (v v' : A) (o : list (string * A)) :
  (k, v) ∈ obj_replace k' v' o → (k, v) = (k', v') ∨ (k, v) ∈ o.
Proof.
  induction o as [|[k0 v0] o IH]; simpl; intros H.
  - apply elem_of_nil in H. contradiction.
  - destruct (decide (k' = k0)) as [->|Hne].
    + apply elem_of_cons in H as [H|H]; [left; exact H | right; right; exact H].
    + apply elem_of_cons in H as [H|H]; [right; rewrite H; left|].
      destruct (IH H) as [?|?]; [left | right; right]; assumption.
Qed.

Lemma obj_insert_elem_of {A} (k k' : string) (v v' : A) (o : list (string * A)) :
  (k, v) ∈ obj_insert k' v' o ↔ (k, v) = (k', v') ∨ (k, v) ∈ o.
Proof.
  induction o as [|[k0 v0] o IH]; simpl.
  - rewrite list_elem_of_singleton. split; [intros H; left; exact H|].
    intros [H|H]; [exact H | apply elem_of_nil in H; contradiction].
  - destruct (enumerated_before k' k0).
    + rewrite !elem_of_cons. tauto.
    + rewrite !elem_of_cons, IH. tauto.
Qed.

Lemma obj_set_elem_of {A} (k k' : string) (v v' : A) (o : list (string * A)) :
  (k, v) ∈ obj_set k' v' o → (k, v) = (k', v') ∨ (k, v) ∈ o.
Proof.
  unfold obj_set. destruct (obj_get k' o).
  - apply obj_replace_elem_of.
  - apply obj_insert_elem_of.
Qed.

Lemma obj_get_fmap {A B} (h : A → B) (k : string) (o : list (string * A)) :
  obj_get k (prod_map id h <$> o) = h <$> obj_get k o.
Proof.
  induction o as [|[k' v'] o IH]; simpl; [reflexivity|].
  destruct (decide (k = k')); [reflexivity | exact IH].
Qed.

Lemma obj_set_fmap {A B} (h : A → B) (k : string) (v : A) (o : list (string * A)) :
  prod_map id h <$> obj_set k v o = obj_set k (h v) (prod_map id h <$> o).
Proof.
  unfold obj_set. rewrite obj_get_fmap. destruct (obj_get k o) as [v0|]; simpl.
  - induction o as [|[k' v'] o IH]; simpl; [reflexivity|].
    destruct (decide (k = k')); simpl; [reflexivity|]. f_equal. exact IH.
  - induction o as [|[k' v'] o IH]; simpl; [reflexivity|].
    destruct (enumerated_before k k'); simpl; [reflexivity|]. f_equal. exact IH.
Qed.

Lemma obj_set_Forall {A} (P : A → Prop) (k : string) (v : A) (o : list (string * A)) :
  P v → Forall (λ kv, P kv.2) o → Forall (λ kv, P kv.2) (obj_set k v o).
Proof.
  intros Hv Ho. apply Forall_forall. intros [k' v'] Hin.
  apply obj_set_elem_of in Hin as [[= -> ->]|Hin]; [exact Hv|].
  rewrite Forall_forall in Ho. exact (Ho (k', v') Hin).
Qed.

(** *** The enumeration order *)

Lemma enumerated_before_asym (k k' : string) :
  enumerated_before k k' = true → enumerated_before k' k = false.
Proof.
  unfold enumerated_before.
  destruct (array_index k) as [i|], (array_index k') as [j|]; try discriminate;
    [|reflexivity].
  intros H. apply N.ltb_lt in H. apply N.ltb_ge. lia.
Qed.

Lemma enumerated_before_later (k k' x : string) :
  enumerated_before k k' = true → enumerated_before x k' = false →
  enumerated_before x k = false.
Proof.
  unfold enumerated_before.
  destruct (array_index k) as [i|], (array_index k') as [j|], (array_index x) as [m|];
    try discriminate; try reflexivity.
  intros H1 H2. apply N.ltb_lt in H1. apply N.ltb_ge in H2. apply N.ltb_ge. lia.
Qed.

Lemma keys_insert_enumeration (k : string) (ks : list string) :
  enumeration ks → enumeration (keys_insert k ks).
Proof.
  induction ks as [|k0 ks IH]; simpl; intros Hks.
  - split; [intros k' Hk'; apply elem_of_nil in Hk'; contradiction | exact I].
  - destruct Hks as [Hlater Hks].
    destruct (enumerated_before k k0) eqn:Hbefore; simpl.
    + split; [|split; assumption].
      intros k' Hk'. apply elem_of_cons in Hk' as [->|Hk'].
      * apply enumerated_before_asym. exact Hbefore.
      * apply (enumerated_before_later k k0); [exact Hbefore | apply Hlater; exact Hk'].
    + split; [|apply IH; exact Hks].
      intros k' Hk'. apply keys_insert_elem_of in Hk' as [->|Hk'];
        [exact Hbefore | apply Hlater; exact Hk'].
Qed.

Lemma obj_set_enumeration {A} (k : string) (v : A) (o : list (string * A)) :
  enumeration o.*1 → enumeration (obj_set k v o).*1.
Proof.
  intros Ho. rewrite obj_set_keys. destruct (decide (k ∈ o.*1)); [exact Ho|].
  apply keys_insert_enumeration. exact Ho.
Qed.

Lemma obj_insert_last {A} (k : string) (v : A) (o : list (string * A)) :
  (∀ k', k' ∈ o.*1 → enumerated_before k k' = false) →
  obj_insert k v o = o ++ [(k, v)].
Proof.
  induction o as [|[k' v'] o IH]; simpl; intros Hlast; [reflexivity|].
  rewrite (Hlast k') by left. f_equal. apply IH.
  intros k0 Hk0. apply Hlast. right. exact Hk0.
Qed.

Lemma enumeration_app (ks1 ks2 : list string) :
  enumeration (ks1 ++ ks2) →
  enumeration ks2 ∧ ∀ k1 k2, k1 ∈ ks1 → k2 ∈ ks2 → enumerated_before k2 k1 = false.
Proof.
  induction ks1 as [|k ks1 IH]; simpl.
  - intros H. split; [exact H|]. intros k1 k2 Hk1. apply elem_of_nil in Hk1. contradiction.
  - intros [Hlater H]. destruct (IH H) as [H2 Hcross]. split; [exact H2|].
    intros k1 k2 Hk1 Hk2. apply elem_of_cons in Hk1 as [->|Hk1].
    + apply Hlater. apply elem_of_app. right. exact Hk2.
    + apply Hcross; assumption.
Qed.

(** Creating the properties of an object one by one, in the order of its
    enumeration, builds the same object. *)
Lemma spread_enumeration {A} (a b : list (string * A)) :
  NoDup (a ++ b).*1 → enumeration (a ++ b).*1 → spread a b = a ++ b.
Proof.
  revert a. induction b as [|[k v] b IH]; intros a Hnd Hord; simpl.
  - rewrite app_nil_r. reflexivity.
  - unfold spread in *. simpl.
    assert (k ∉ a.*1) as Hk.
    { rewrite fmap_app in Hnd. apply NoDup_app in Hnd as (_ & Hdis & _).
      intros Hin. apply (Hdis k Hin). left. }
    assert (obj_set k v a = a ++ [(k, v)]) as ->.
    { unfold obj_set. apply obj_get_None in Hk as ->. apply obj_insert_last.
      intros k' Hk'. rewrite fmap_app in Hord.
      apply enumeration_app in Hord as [_ Hcross]. apply (Hcross k' k Hk'). left. }
    rewrite IH; rewrite <- app_assoc; [reflexivity | exact Hnd | exact Hord].
Qed.

Lemma fromEntries_enumeration {A} (es : list (string * A)) :
  NoDup es.*1 → enumeration es.*1 → fromEntries es = es.
Proof. intros Hnd Hord. apply (spread_enumeration [] es); assumption. Qed.

(** *** Assignment *)

Lemma obj_assign_keys_elem_of {A} (k k' : string) (v : A) (o : list (string * A)) :
  k ∈ (obj_assign k' v o).*1 ↔ (k = k' ∧ k ≠ "__proto__") ∨ k ∈ o.*1.
Proof.
  unfold obj_assign. destruct (decide (k' = "__proto__")) as [->|Hne].
  - split; [intros H; right; exact H | intros [[-> H]|H]; [contradiction | exact H]].
  - rewrite obj_set_keys_elem_of. split; [|tauto].
    intros [->|H]; [left; split; [reflexivity | exact Hne] | right; exact H].
Qed.

Lemma obj_assign_NoDup {A} (k : string) (v : A) (o : list (string * A)) :
  NoDup o.*1 → NoDup (obj_assign k v o).*1.
Proof.
  unfold obj_assign. destruct (decide (k = "__proto__")); [tauto | apply obj_set_NoDup].
Qed.

Lemma obj_assign_enumeration {A} (k : string) (v : A) (o : list (string * A)) :
  enumeration o.*1 → enumeration (obj_assign k v o).*1.
Proof.
  unfold obj_assign. destruct (decide (k = "__proto__")); [tauto | apply obj_set_enumeration].
Qed.

Lemma obj_assign_elem_of {A} (k k' : string) (v v' : A) (o : list (string * A)) :
  (k, v) ∈ obj_assign k' v' o → (k, v) = (k', v') ∨ (k, v) ∈ o.
Proof.
  unfold obj_assign. destruct (decide (k' = "__proto__")); [tauto | apply obj_set_elem_of].
Qed.

Lemma obj_assign_fmap {A B} (h : A → B) (k : string) (v : A) (o : list (string * A)) :
  prod_map id h <$> obj_assign k v o = obj_assign k (h v) (prod_map id h <$> o).
Proof.
  unfold obj_assign. destruct (decide (k = "__proto__")); [reflexivity | apply obj_set_fmap].
Qed.

Lemma obj_assign_Forall {A} (P : A → Prop) (k : string) (v : A) (o : list (string * A)) :
  P v → Forall (λ kv, P kv.2) o → Forall (λ kv, P kv.2) (obj_assign k v o).
Proof.
  unfold obj_assign. destruct (decide (k = "__proto__")); [tauto | apply obj_set_Forall].
Qed.

Lemma obj_assign_keys_ext {A B} (k : string) (v : A) (v' : B)
  (o : list (string * A)) (o' : list (string * B)) :
  o.*1 = o'.*1 → (obj_assign k v o).*1 = (obj_assign k v' o').*1.
Proof.
  intros Hkeys. unfold obj_assign. destruct (decide (k = "__proto__")); [exact Hkeys|].
  rewrite !obj_set_keys, Hkeys. reflexivity.
Qed.

Lemma obj_get_assign {A} (k k' : string) (v : A) (o : list (string * A)) :
  k' ≠ "__proto__" →
  obj_get k (obj_assign k' v o) = if decide (k = k') then Some v else obj_get k o.
Proof.
  intros Hne. unfold obj_assign. rewrite decide_False by exact Hne. apply obj_get_set.
Qed.

(** A property of the body that the pipeline transmits: a property of the
    handler's object is a property of the envelope. *)
Lemma spread_get {A} (k : string) (v : A) (a b : list (string * A)) :
  NoDup b.*1 → obj_get k b = Some v → obj_get k (spread a b) = Some v.
Proof.
  revert a. induction b as [|[k' v'] b IH]; intros a Hnd Hget; [discriminate|].
  simpl in Hget. apply NoDup_cons in Hnd as [Hk' Hnd]. unfold spread in *. simpl.
  destruct (decide (k = k')) as [->|Hne].
  - injection Hget as ->. clear IH.
    assert (∀ a0 : list (string * A), obj_get k' a0 = Some v →
            obj_get k' (foldl (λ o kv, obj_set kv.1 kv.2 o) a0 b) = Some v) as Hkeep.
    { clear a. induction b as [|[k0 v0] b IHb]; intros a0 Ha0; simpl; [exact Ha0|].
      apply not_elem_of_cons in Hk' as [Hne Hk'].
      apply NoDup_cons in Hnd as [_ Hnd].
      apply IHb; [exact Hk' | exact Hnd |].
      simpl. rewrite obj_get_set. rewrite decide_False by exact Hne. exact Ha0. }
    apply Hkeep. rewrite obj_get_set. rewrite decide_True by reflexivity. reflexivity.
  - apply IH; assumption.
Qed.

(** ** The loop over a shape *)

Lemma for_in_NoDup {A B} (f : A → B) (shape : list (string * A)) (obj : list (string * B)) :
  NoDup obj.*1 → NoDup (for_in f shape obj).*1.
Proof.
  revert obj. induction shape as [|[k s] shape IH]; intros obj Hnd; simpl; [exact Hnd|].
  apply IH. apply obj_assign_NoDup. exact Hnd.
Qed.

Lemma for_in_enumeration {A B} (f : A → B) (shape : list (string * A))
  (obj : list (string * B)) :
  enumeration obj.*1 → enumeration (for_in f shape obj).*1.
Proof.
  revert obj. induction shape as [|[k s] shape IH]; intros obj Hord; simpl; [exact Hord|].
  apply IH. apply obj_assign_enumeration. exact Hord.
Qed.

Lemma for_in_elem_of {A B} (f : A → B) (shape : list (string * A))
  (obj : list (string * B)) (k : string) (v : B) :
  (k, v) ∈ for_in f shape obj → (k, v) ∈ obj ∨ ∃ s, (k, s) ∈ shape ∧ v = f s.
Proof.
  revert obj. induction shape as [|[k' s'] shape IH]; intros obj Hin; simpl in Hin.
  - left. exact Hin.
  - destruct (IH _ Hin) as [Hset|(s & Hs & ->)].
    + apply obj_assign_elem_of in Hset as [[= -> ->]|Hobj].
      * right. exists s'. split; [left | reflexivity].
      * left. exact Hobj.
    + right. exists s. split; [right; exact Hs | reflexivity].
Qed.

Lemma for_in_fmap {A B C} (f : A → B) (f' : A → C) (h : B → C)
  (shape : list (string * A)) (obj : list (string * B)) :
  Forall (λ kv, h (f kv.2) = f' kv.2) shape →
  prod_map id h <$> for_in f shape obj = for_in f' shape (prod_map id h <$> obj).
Proof.
  revert obj. induction shape as [|[k s] shape IH]; intros obj Hall; simpl; [reflexivity|].
  apply Forall_cons in Hall as [Hs Hall]. simpl in Hs.
  rewrite IH by exact Hall. rewrite obj_assign_fmap. rewrite Hs. reflexivity.
Qed.

(** Induction over schemas, with the members of an object schema. *)
Lemma ZodType_nested_ind (P : ZodType → Prop) :
  P ZodString → P ZodNumber →
  (∀ type, P type → P (ZodArray type)) →
  (∀ shape, Forall (λ kv, P kv.2) shape → P (ZodObject shape)) →
  (∀ typeName, P (ZodOther typeName)) →
  ∀ schema, P schema.
Proof.
  intros HS HN HA HO HX. fix IH 1. intros [| |type|shape|typeName].
  - exact HS.
  - exact HN.
  - apply HA, IH.
  - apply HO. induction shape as [|[k s] shape IHs]; constructor.
    + apply IH.
    + exact IHs.
  - apply HX.
Qed.

(** ** The shape converter *)

(** C8.  [zodToSwagger] is a total function on schemas, defined by
    recursion on their finite nesting, so it terminates and cannot throw: on
    every schema its result is a well-formed documentation shape, and on a
    schema kind it does not recognise the result is [{type: "unknown"}]. *)
Theorem zodToSwagger_total (schema : ZodType) (typeName : string) :
  DocShape (zodToSwagger schema)
  ∧ zodToSwagger (ZodOther typeName) = VObj [("type", VStr "unknown")].
Proof.
  split; [|reflexivity].
  induction schema as [| |type IH|shape IH|other] using ZodType_nested_ind; simpl.
  - apply shape_leaf. set_solver.
  - apply shape_leaf. set_solver.
  - apply shape_array. exact IH.
  - apply shape_object. intros k v Hin.
    apply for_in_elem_of in Hin as [Hnil|(s & Hs & ->)].
    + apply elem_of_nil in Hnil. contradiction.
    + rewrite Forall_forall in IH. exact (IH (k, s) Hs).
  - apply shape_leaf. set_solver.
Qed.

(** The example object of an unrecognised kind is the string "unknown". *)
Lemma zodToObject_unknown (typeName : string) :
  zodToObject (ZodOther typeName) = VStr "unknown".
Proof. reflexivity. Qed.

Lemma primitive_shapes_agree (schema : ZodType) :
  primitive schema = true →
  VObj [("type", zodToObject schema)] = zodToSwagger schema.
Proof. destruct schema; simpl; intros H; try discriminate; reflexivity. Qed.

(** C9, as the code has it.  The documentation shape that the assembler
    derives from an example object ([generatedSchema], used for request
    bodies and responses) agrees with the shape derived directly from the
    schema when the schema is an object whose members are all primitive
    (strings, numbers, unrecognised kinds). *)
Theorem flat_object_round_trip (shape : list (string * ZodType)) :
  Forall (λ kv, primitive kv.2 = true) shape →
  SwaggerDoc.generatedSchema (zodToObject (ZodObject shape))
  = Ok (zodToSwagger (ZodObject shape)).
Proof.
  intros Hflat. unfold SwaggerDoc.generatedSchema. simpl. do 5 f_equal.
  assert (∀ l : Fields,
            (λ '(key, type), (key, VObj [("type", type)])) <$> l
            = prod_map id (λ type : JsVal, VObj [("type", type)]) <$> l) as ->.
  { intros l. induction l as [|[k v] l IHl]; simpl; [reflexivity|].
    f_equal. exact IHl. }
  assert (∀ l : Fields,
            (prod_map id (λ type : JsVal, VObj [("type", type)]) <$> l).*1 = l.*1) as Hkeys.
  { intros l. rewrite <- list_fmap_compose. reflexivity. }
  rewrite fromEntries_enumeration.
  - rewrite (for_in_fmap zodToObject zodToSwagger); [reflexivity|].
    eapply Forall_impl; [exact Hflat|].
    intros [k s] Hs. simpl in *. apply primitive_shapes_agree. exact Hs.
  - rewrite Hkeys. apply for_in_NoDup. apply NoDup_nil_2.
  - rewrite Hkeys. apply for_in_enumeration. exact I.
Qed.

Lemma flat_object_round_trip_witness :
  SwaggerDoc.generatedSchema
    (zodToObject (ZodObject [("content", ZodString); ("count", ZodNumber);
                             ("active", ZodOther "ZodBoolean")]))
  = Ok (zodToSwagger (ZodObject [("content", ZodString); ("count", ZodNumber);
                                 ("active", ZodOther "ZodBoolean")])).
Proof.
  apply flat_object_round_trip. repeat constructor.
Defined.

(** C9 as stated fails on a nested schema: the assembler puts the example
    of the inner object where its documentation shape belongs. *)
Lemma nested_object_round_trip_fails :
  SwaggerDoc.generatedSchema
    (zodToObject (ZodObject [("data", ZodObject [("id", ZodString)])]))
  = Ok (VObj [("type", VStr "object");
              ("properties",
               VObj [("data", VObj [("type", VObj [("id", VStr "string")])])])])
  ∧ SwaggerDoc.generatedSchema
      (zodToObject (ZodObject [("data", ZodObject [("id", ZodString)])]))
    ≠ Ok (zodToSwagger (ZodObject [("data", ZodObject [("id", ZodString)])])).
Proof. split; [reflexivity|]. vm_compute. discriminate. Qed.

(** ** Path parameters *)

Lemma params_fold_spec (names : list string) (acc : Fields) :
  NoDup acc.*1 → enumeration acc.*1 → "__proto__" ∉ acc.*1 →
  Forall (λ kv, kv.2 = VStr "") acc →
  let o := foldl (λ o p, obj_assign p (VStr "") o) acc names in
  NoDup o.*1 ∧ enumeration o.*1 ∧ ("__proto__" ∉ o.*1)
  ∧ Forall (λ kv, kv.2 = VStr "") o
  ∧ ∀ k, k ∈ o.*1 ↔ k ∈ acc.*1 ∨ (k ∈ names ∧ k ≠ "__proto__").
Proof.
  revert acc. induction names as [|n names IH]; intros acc Hnd Hord Hproto Hall; simpl.
  - split; [exact Hnd|]. split; [exact Hord|]. split; [exact Hproto|].
    split; [exact Hall|]. intros k. split; [intros H; left; exact H|].
    intros [H|[H _]]; [exact H | apply elem_of_nil in H; contradiction].
  - destruct (IH (obj_assign n (VStr "") acc)) as (H1 & H2 & H3 & H4 & H5).
    + apply obj_assign_NoDup. exact Hnd.
    + apply obj_assign_enumeration. exact Hord.
    + rewrite obj_assign_keys_elem_of. intros [[_ H]|H]; [apply H; reflexivity | contradiction].
    + apply (obj_assign_Forall (λ v, v = VStr "")); [reflexivity | exact Hall].
    + split; [exact H1|]. split; [exact H2|]. split; [exact H3|]. split; [exact H4|].
      intros k. rewrite H5, obj_assign_keys_elem_of, elem_of_cons. split.
      * intros [[[-> Hne]|Hk]|[Hk Hne]].
        -- right. split; [left; reflexivity | exact Hne].
        -- left. exact Hk.
        -- right. split; [right; exact Hk | exact Hne].
      * intros [Hk|[[->|Hk] Hne]].
        -- left. right. exact Hk.
        -- left. left. split; [reflexivity | exact Hne].
        -- right. split; assumption.
Qed.

(** The object built from a path: one property per distinct parameter
    name, the name [__proto__] apart, each with the empty string as value,
    in the enumeration order of JavaScript. *)
Lemma createParamsObject_spec (path : string) :
  NoDup (createParamsObject path).*1
  ∧ enumeration (createParamsObject path).*1
  ∧ ("__proto__" ∉ (createParamsObject path).*1)
  ∧ Forall (λ kv, kv.2 = VStr "") (createParamsObject path)
  ∧ ∀ k, k ∈ (createParamsObject path).*1 ↔ k ∈ match_params path ∧ k ≠ "__proto__".
Proof.
  destruct (params_fold_spec (match_params path) [])
    as (H1 & H2 & H3 & H4 & H5);
    [apply NoDup_nil_2 | exact I | apply not_elem_of_nil | constructor |].
  split; [exact H1|]. split; [exact H2|]. split; [exact H3|]. split; [exact H4|].
  intros k. unfold createParamsObject. rewrite H5. split.
  - intros [Hk|Hk]; [apply elem_of_nil in Hk; contradiction | exact Hk].
  - intros Hk. right. exact Hk.
Qed.

Lemma obj_get_elem_of {A} (k : string) (o : list (string * A)) :
  k ∈ o.*1 → ∃ v, obj_get k o = Some v ∧ (k, v) ∈ o.
Proof.
  induction o as [|[k' v'] o IH]; simpl; intros Hk.
  - apply elem_of_nil in Hk. contradiction.
  - destruct (decide (k = k')) as [->|Hne].
    + exists v'. split; [reflexivity | left].
    + apply elem_of_cons in Hk as [?|Hk]; [contradiction|].
      destruct (IH Hk) as (v & Hget & Hin). exists v. split; [exact Hget | right; exact Hin].
Qed.

(** Assigning the keys of an object one by one, in the order of its
    enumeration, builds an object with these keys in that order. *)
Lemma assign_keys {B} (g : string → B) (keys : list string) (acc : list (string * B)) :
  "__proto__" ∉ keys →
  foldl (λ o key, obj_assign key (g key) o) acc keys
  = spread acc ((λ key, (key, g key)) <$> keys).
Proof.
  revert acc. induction keys as [|k keys IH]; intros acc Hproto; [reflexivity|].
  apply not_elem_of_cons in Hproto as [Hne Hproto]. simpl. rewrite IH by exact Hproto.
  unfold spread. simpl. unfold obj_assign at 1.
  rewrite decide_False by (intros Heq; apply Hne; symmetry; exact Heq). reflexivity.
Qed.

Lemma assign_enumeration {B} (g : string → B) (keys : list string) :
  NoDup keys → enumeration keys → "__proto__" ∉ keys →
  foldl (λ o key, obj_assign key (g key) o) [] keys = (λ key, (key, g key)) <$> keys.
Proof.
  intros Hnd Hord Hproto. rewrite assign_keys by exact Hproto.
  assert (((λ key, (key, g key)) <$> keys).*1 = keys) as Hkeys.
  { rewrite <- list_fmap_compose. apply list_fmap_id. }
  apply (fromEntries_enumeration ((λ key, (key, g key)) <$> keys)); rewrite Hkeys; assumption.
Qed.

(** The schema built from a path accepts the object built from the same
    path: [createZodSchema] returns that object. *)
Lemma createZodSchema_Ok (path : string) :
  createZodSchema path = Ok (createParamsObject path).
Proof.
  unfold createZodSchema.
  destruct (createParamsObject_spec path) as (Hnd & Hord & Hproto & Hall & _).
  set (o := createParamsObject path) in *.
  rewrite (assign_enumeration (λ _, tt)) by assumption.
  rewrite <- list_fmap_compose.
  replace (fst ∘ (λ key : string, (key, ()))) with (id : string → string) by reflexivity.
  rewrite list_fmap_id.
  assert (∀ key, key ∈ o.*1 → default VUndefined (obj_get key o) = VStr "") as Hget.
  { intros key Hkey. destruct (obj_get_elem_of key o Hkey) as (v & -> & Hin).
    rewrite Forall_forall in Hall. exact (Hall (key, v) Hin). }
  unfold parse_nullable_strings.
  assert (∀ keys, (∀ key, key ∈ keys → key ∈ o.*1) →
            flat_map (λ key,
              match default VUndefined (obj_get key o) with
              | VStr _ | VNull => []
              | VUndefined => [{| issue_path := [PKey key]; issue_message := "Required" |}]
              | v => [{| issue_path := [PKey key];
                         issue_message := "Expected string, received " +:+ getParsedType v |}]
              end) keys = []) as ->.
  { induction keys as [|k keys IH]; intros Hsub; simpl; [reflexivity|].
    rewrite (Hget k) by (apply Hsub; left). simpl.
    apply IH. intros key Hkey. apply Hsub. right. exact Hkey. }
  2: { intros key Hkey. exact Hkey. }
  f_equal.
  rewrite (assign_enumeration (λ key, default VUndefined (obj_get key o))) by assumption.
  assert (∀ l : Fields, (∀ kv, kv ∈ l → (kv.1, default VUndefined (obj_get kv.1 o)) = kv) →
            (λ key, (key, default VUndefined (obj_get key o))) <$> l.*1 = l) as Hmap.
  { induction l as [|kv l IH]; intros Hl; simpl; [reflexivity|].
    rewrite (Hl kv) by left. f_equal. apply IH. intros kv' Hkv'. apply Hl. right. exact Hkv'. }
  apply Hmap. intros [k v] Hin. simpl.
  rewrite Hget by (apply list_elem_of_fmap; exists (k, v); split; [reflexivity | exact Hin]).
  rewrite Forall_forall in Hall. specialize (Hall (k, v) Hin). simpl in Hall. rewrite Hall.
  reflexivity.
Qed.

(** ** The request pipeline *)

Lemma validateParams_throws (req : Request) (schemaObject : Fields) (key : string) :
  key ∈ schemaObject.*1 →
  truthy (default VUndefined (obj_get key (req_params req))) = false →
  ∃ missing,
    missing ∈ schemaObject.*1
    ∧ truthy (default VUndefined (obj_get missing (req_params req))) = false
    ∧ validateParams req schemaObject
      = Throw (ThrowError (new_Error ("Parameter '" +:+ missing +:+ "' is required"))).
Proof.
  unfold validateParams. generalize (schemaObject.*1) as keys.
  induction keys as [|k keys IH]; intros Hin Hfalsy.
  - apply elem_of_nil in Hin. contradiction.
  - simpl.
    destruct (truthy (default VUndefined (obj_get k (req_params req)))) eqn:Hk; simpl.
    + apply elem_of_cons in Hin as [->|Hin]; [congruence|].
      destruct (IH Hin Hfalsy) as (m & Hm & Hmf & Hthrow).
      exists m. split; [right; exact Hm|]. split; [exact Hmf | exact Hthrow].
    + exists k. split; [left|]. split; [exact Hk | reflexivity].
Qed.

(** C1, as the code has it.  When the request carries no value for a
    dynamic segment of the route and the declared schemas accept the
    request, [validateParams] throws a plain [Error], which [handleError]
    answers with HTTP 500 and the fixed message, not with a 400 that names
    the parameter. *)
Theorem missing_param_answers_500 (development : bool) (b : BoundRoute)
  (req : Request) (res : Response) (key : string) :
  validateRequest req (b_schemas b) = Ok tt →
  key ∈ (b_schemaObject b).*1 →
  truthy (default VUndefined (obj_get key (req_params req))) = false →
  ∃ missing,
    missing ∈ (b_schemaObject b).*1
    ∧ dispatch development b req res
      = Ok (Transmit 500
              (VObj [("success", VBool false);
                     ("message", VStr "Internal server error");
                     ("traceStack",
                      VStr ("Error: Parameter '" +:+ missing +:+ "' is required"))])).
Proof.
  intros Hvalid Hkey Hfalsy.
  destruct (validateParams_throws req (b_schemaObject b) key Hkey Hfalsy)
    as (missing & Hm & _ & Hthrow).
  exists missing. split; [exact Hm|].
  unfold dispatch, createHandler, validation. rewrite Hvalid. simpl.
  rewrite decide_True.
  - rewrite Hthrow. reflexivity.
  - destruct ((b_schemaObject b).*1); [apply elem_of_nil in Hkey; contradiction | discriminate].
Qed.

Lemma missing_param_answers_500_witness :
  createZodSchema "/items/:id?" = Ok [("id", VStr "")]
  ∧ ∃ missing,
      missing ∈ [("id", VStr "")].*1
      ∧ dispatch false (bind_route Example.item_route [("id", VStr "")])
                 Example.no_params fresh_response
        = Ok (Transmit 500
                (VObj [("success", VBool false);
                       ("message", VStr "Internal server error");
                       ("traceStack",
                        VStr ("Error: Parameter '" +:+ missing +:+ "' is required"))])).
Proof.
  split; [reflexivity|].
  apply (missing_param_answers_500 false
           (bind_route Example.item_route [("id", VStr "")])
           Example.no_params fresh_response "id").
  - reflexivity.
  - simpl. left.
  - reflexivity.
Defined.

(** With an explicit params schema the same request is refused with a 400
    whose details carry the path of the parameter. *)
Lemma explicit_params_schema_answers_400 :
  dispatch false
    (bind_route {| route_path := "/items/:id?"; route_method := GET;
                   route_handler := Example.get_item;
                   route_schemas := Example.only (Some Example.paramsSchema) None None |}
                [("id", VStr "")])
    Example.no_params fresh_response
  = Ok (Transmit 400
          (VObj [("success", VBool false);
                 ("message", VStr "Validation error: Required at 'id'");
                 ("details",
                  VArr [VObj [("path", VArr [VStr "id"]);
                              ("message", VStr "Required")]])])).
Proof. reflexivity. Qed.

(** What [res.send] does with a status that Node accepts. *)
Lemma res_send_valid (req : Request) (payload : JsVal) (res : Response) :
  (100 ≤ statusCode res ≤ 999)%Z →
  res_send req payload res
  = Ok (if req_fresh req res payload then Bodiless 304
        else if decide (bodiless (statusCode res))
             then Bodiless (statusCode res)
             else Transmit (statusCode res) payload).
Proof.
  intros Hstatus. unfold res_send. destruct (req_fresh req res payload).
  - reflexivity.
  - rewrite decide_True by exact Hstatus. reflexivity.
Qed.

(** A body that [res.send] transmits is the one it was given. *)
Lemma res_send_Transmit (req : Request) (payload payload' : JsVal) (res : Response)
  (status : Z) :
  res_send req payload res = Ok (Transmit status payload') → payload' = payload.
Proof.
  unfold res_send. destruct (req_fresh req res payload).
  - simpl. discriminate.
  - destruct (decide (100 ≤ statusCode res ≤ 999)%Z); [|discriminate].
    destruct (decide (bodiless (statusCode res))); [discriminate|].
    intros [= _ <-]. reflexivity.
Qed.

(** A status from 400 on reaches the client as it is, with the body. *)
Lemma res_send_failure (req : Request) (payload : JsVal) (res : Response) :
  (400 ≤ statusCode res ≤ 999)%Z →
  res_send req payload res = Ok (Transmit (statusCode res) payload).
Proof.
  intros Hstatus. rewrite res_send_valid by lia. unfold req_fresh.
  rewrite bool_decide_eq_false_2 by lia. simpl.
  rewrite decide_False by (unfold bodiless; lia). reflexivity.
Qed.

(** A rejection of the handler's promise is handed to [next]: the branch
    of [handleError] with the fixed message only sees what the validation
    throws. *)
Lemma rejection_reaches_next (development : bool) (b : BoundRoute)
  (req : Request) (res res' : Response) (error : Thrown) :
  validation (b_schemas b) (b_schemaObject b) req = Ok tt →
  run (b_handler b) req res = (res', Rejected error) →
  dispatch development b req res
  = match next_signal error with
    | Failure => globalErrorHandler development error req res'
    | _ => Ok (Next error res')
    end.
Proof.
  intros Hvalid Hrun. unfold dispatch, createHandler, preRequest, catchAsync.
  rewrite Hvalid, Hrun. reflexivity.
Qed.

(** A request handed on by the route reaches the fallback. *)
Lemma handed_on_reaches_fallback (development : bool) (b : BoundRoute)
  (req : Request) (res res' : Response) (error : Thrown) :
  dispatch development b req res = Ok (Next error res') →
  next_signal error = GoOn →
  serve development b req res
  = Ok (Transmit 404 (VObj [("message", VStr "Unknown URL");
                            ("path", VStr (req_originalUrl req))])).
Proof.
  intros Hdispatch Hsignal. unfold serve. rewrite Hdispatch, Hsignal.
  unfold unknownUrl. apply res_send_failure. simpl. lia.
Qed.

(** C4, as the code has it.  When the validation passes and the handler
    rejects with a value that is neither a [ZodError] nor an [HttpError],
    [catchAsync] hands the value to [next].  An [Error] is answered by the
    global error handler: the status is 500, or 404 when the message
    contains "not found"; the body has [success: false], the error's own
    message and [data: null], and the stack only in development mode.  Any
    other value that Express reads as an error is answered 500 with the
    message "An unknown error occurred, " followed by the text of the
    value.  A falsy value or the string "route" is no error for Express:
    the request goes on and, no other route matching, gets the 404 of the
    fallback for unknown URLs.  With the string "router" the request leaves
    the router. *)
Theorem handler_error_response (development : bool) (b : BoundRoute)
  (req : Request) (res res' : Response) (error : Thrown) :
  validation (b_schemas b) (b_schemaObject b) req = Ok tt →
  run (b_handler b) req res = (res', Rejected error) →
  undeclared error →
  match error with
  | ThrowError e =>
      let status := if includes "not found" (err_message e) then 404%Z else 500%Z in
      dispatch development b req res
      = Ok (Transmit status
              (VObj [("statusCode", VNum status);
                     ("message", VStr (err_message e));
                     ("success", VBool false);
                     ("data", VNull);
                     ("traceStack",
                      if development then VStr (err_stack e) else VUndefined)]))
  | ThrowValue v =>
      match next_signal error with
      | Failure =>
          ∃ text,
            dispatch development b req res
            = Ok (Transmit 500
                    (VObj [("statusCode", VNum 500);
                           ("message", VStr ("An unknown error occurred, " +:+ text));
                           ("success", VBool false);
                           ("data", VNull);
                           ("traceStack", VUndefined)]))
            ∧ (printable v = true → text = js_String v)
      | GoOn =>
          dispatch development b req res = Ok (Next error res')
          ∧ serve development b req res
            = Ok (Transmit 404 (VObj [("message", VStr "Unknown URL");
                                      ("path", VStr (req_originalUrl req))]))
      | LeaveRouter => dispatch development b req res = Ok (Next error res')
      end
  end.
Proof.
  intros Hvalid Hrun Hcls.
  pose proof (rejection_reaches_next development _ _ _ _ _ Hvalid Hrun) as Hnext.
  destruct error as [[c n m s ps]|v].
  - simpl in Hcls. subst c. rewrite Hnext. cbn [next_signal].
    unfold globalErrorHandler. cbn [cls err_message err_stack].
    destruct (includes "not found" m); apply res_send_failure; simpl; lia.
  - destruct (next_signal (ThrowValue v)) eqn:Hsignal.
    + split; [exact Hnext|].
      exact (handed_on_reaches_fallback _ _ _ _ _ _ Hnext Hsignal).
    + exact Hnext.
    + exists (js_String v). split; [|reflexivity]. rewrite Hnext.
      unfold globalErrorHandler. apply res_send_failure. simpl. lia.
Qed.

Lemma handler_error_response_witness :
  dispatch true (Example.bound (Example.throws (new_Error "boom")))
           Example.get_profile_request fresh_response
  = Ok (Transmit 500
          (VObj [("statusCode", VNum 500);
                 ("message", VStr "boom");
                 ("success", VBool false);
                 ("data", VNull);
                 ("traceStack", VStr "Error: boom")])).
Proof.
  apply (handler_error_response true
           (Example.bound (Example.throws (new_Error "boom")))
           Example.get_profile_request fresh_response fresh_response
           (ThrowError (new_Error "boom")));
    reflexivity.
Defined.

(** A handler that throws [new Error("user not found")], outside
    development mode: the answer is a 404 with that message and no stack. *)
Lemma handler_error_not_internal_server_error :
  dispatch false (Example.bound (Example.throws (new_Error "user not found")))
           Example.get_profile_request fresh_response
  = Ok (Transmit 404
          (VObj [("statusCode", VNum 404);
                 ("message", VStr "user not found");
                 ("success", VBool false);
                 ("data", VNull);
                 ("traceStack", VUndefined)]))
  ∧ ¬ internal_server_error
        (dispatch false (Example.bound (Example.throws (new_Error "user not found")))
                  Example.get_profile_request fresh_response).
Proof.
  split; [reflexivity|].
  intros (payload & stack & Hserved & _). vm_compute in Hserved. discriminate.
Qed.

(** What a handler throws need not be an [Error]: [throw null] ends at the
    fallback for unknown URLs, [throw 'refused'] at the global error
    handler. *)
Lemma handler_throws_values :
  serve false (Example.bound (Example.rejects (ThrowValue VNull)))
        Example.get_profile_request fresh_response
  = Ok (Transmit 404 (VObj [("message", VStr "Unknown URL"); ("path", VStr "/profile")]))
  ∧ serve false (Example.bound (Example.rejects (ThrowValue (VStr "refused"))))
          Example.get_profile_request fresh_response
    = Ok (Transmit 500
            (VObj [("statusCode", VNum 500);
                   ("message", VStr "An unknown error occurred, refused");
                   ("success", VBool false);
                   ("data", VNull);
                   ("traceStack", VUndefined)])).
Proof. split; reflexivity. Qed.

(** A handler whose promise stays pending gets no answer from the
    pipeline. *)
Lemma pending_handler_is_unanswered :
  dispatch false (Example.bound Example.hangs) Example.get_profile_request
           fresh_response
  = Ok Unanswered.
Proof. reflexivity. Qed.

(** C5, as the code has it.  When the validation passes and the handler
    rejects with an instance of [HttpError] whose code is a status that Node
    accepts, the response has that status, except that a message containing
    "not found" forces 404; the body carries the message of the error.  As
    for every response, Express sends no body with the statuses 204, 205
    and 304 and answers 304 to a fresh conditional request. *)
Theorem declared_status_is_used (development : bool) (b : BoundRoute)
  (req : Request) (res res' : Response) (e : JsError) (code : Z) :
  validation (b_schemas b) (b_schemaObject b) req = Ok tt →
  run (b_handler b) req res = (res', Rejected (ThrowError e)) →
  cls e = IsHttpError code →
  (100 ≤ code ≤ 999)%Z →
  let status := if includes "not found" (err_message e) then 404%Z else code in
  let payload :=
    VObj [("statusCode", VNum status);
          ("message", VStr (err_message e));
          ("success", VBool false);
          ("data", VNull);
          ("traceStack", if development then VStr (err_stack e) else VUndefined)] in
  dispatch development b req res
  = Ok (if req_fresh req (res_status status res') payload then Bodiless 304
        else if decide (bodiless status)
             then Bodiless status
             else Transmit status payload).
Proof.
  intros Hvalid Hrun Hcls Hcode status payload.
  rewrite (rejection_reaches_next _ _ _ _ _ _ Hvalid Hrun). cbn [next_signal].
  unfold globalErrorHandler. destruct e as [c n m s ps]. simpl in Hcls. subst c.
  cbn [cls err_message err_stack] in *.
  apply (res_send_valid req payload (res_status status res')).
  subst status. simpl. destruct (includes "not found" m); lia.
Qed.

Lemma declared_status_is_used_witness :
  dispatch false (Example.bound (Example.throws (new_HttpError 403 "forbidden")))
           Example.get_profile_request fresh_response
  = Ok (Transmit 403
          (VObj [("statusCode", VNum 403);
                 ("message", VStr "forbidden");
                 ("success", VBool false);
                 ("data", VNull);
                 ("traceStack", VUndefined)])).
Proof.
  apply (declared_status_is_used false
           (Example.bound (Example.throws (new_HttpError 403 "forbidden")))
           Example.get_profile_request fresh_response fresh_response
           (new_HttpError 403 "forbidden") 403); try reflexivity. lia.
Defined.

(** The message decides before the code: "profile not found" declared
    with 400 is answered 404, message kept. *)
Lemma not_found_forces_404 :
  dispatch false
    (Example.bound (Example.throws (new_HttpError 400 "profile not found")))
    Example.get_profile_request fresh_response
  = Ok (Transmit 404
          (VObj [("statusCode", VNum 404);
                 ("message", VStr "profile not found");
                 ("success", VBool false);
                 ("data", VNull);
                 ("traceStack", VUndefined)])).
Proof. reflexivity. Qed.

(** C5 as stated fails for a declared code that is no HTTP status: Node
    refuses it when the global error handler sends, so no response with
    that status leaves the pipeline. *)
Lemma declared_status_out_of_range :
  dispatch false (Example.bound (Example.throws (new_HttpError 42 "forbidden")))
           Example.get_profile_request fresh_response
  = Throw (ThrowError (ERR_HTTP_INVALID_STATUS_CODE 42))
  ∧ ¬ ∃ served,
        dispatch false (Example.bound (Example.throws (new_HttpError 42 "forbidden")))
                 Example.get_profile_request fresh_response
        = Ok served.
Proof. split; [reflexivity|]. intros (served & H). vm_compute in H. discriminate. Qed.

(** With a declared 204 the status is used and nothing of the body is
    sent. *)
Lemma declared_no_content :
  dispatch false (Example.bound (Example.throws (new_HttpError 204 "nothing here")))
           Example.get_profile_request fresh_response
  = Ok (Bodiless 204).
Proof. reflexivity. Qed.

(** The status code of an error of any other class is not read: the
    answer is 500. *)
Lemma foreign_status_is_ignored :
  dispatch false (Example.bound (Example.throws Example.forbidden))
           Example.get_profile_request fresh_response
  = Ok (Transmit 500
          (VObj [("statusCode", VNum 500);
                 ("message", VStr "forbidden");
                 ("success", VBool false);
                 ("data", VNull);
                 ("traceStack", VUndefined)])).
Proof. reflexivity. Qed.

(** C10, as the code has it.  When the validation passes and the handler
    resolves, the pipeline sends without setting a status: the transport
    status is the one the response object carries at that moment, 200 on a
    response that neither a middleware nor the handler touched, unless the
    request is fresh, which Express answers 304.  The body is the envelope,
    in which the [statusCode] of the handler's object is only a property;
    no body is sent with 204, 205 and 304. *)
Theorem success_status_is_response_status (development : bool) (b : BoundRoute)
  (req : Request) (res res' : Response) (result : Fields) :
  validation (b_schemas b) (b_schemaObject b) req = Ok tt →
  run (b_handler b) req res = (res', Resolved result) →
  (100 ≤ statusCode res' ≤ 999)%Z →
  NoDup result.*1 →
  let payload := VObj (spread [("success", VBool true);
                               ("message", VStr "Request successful")] result) in
  dispatch development b req res
  = Ok (if req_fresh req res' payload then Bodiless 304
        else if decide (bodiless (statusCode res'))
             then Bodiless (statusCode res')
             else Transmit (statusCode res') payload)
  ∧ ∀ code, obj_get "statusCode" result = Some code →
            field "statusCode" payload = Some code.
Proof.
  intros Hvalid Hrun Hstatus Hnd payload. split.
  - unfold dispatch, createHandler, preRequest, catchAsync.
    rewrite Hvalid, Hrun. fold payload. rewrite (res_send_valid _ _ _ Hstatus).
    destruct (req_fresh req res' payload); [reflexivity|].
    destruct (decide _); reflexivity.
  - intros code Hcode. simpl. apply spread_get; assumption.
Qed.

Lemma success_status_is_response_status_witness :
  dispatch false
    (Example.bound {| source := "async () => { return {statusCode: 404}}";
                      run := λ _ res, (res, Resolved [("statusCode", VNum 404)]) |})
    Example.get_profile_request fresh_response
  = Ok (Transmit 200
          (VObj [("success", VBool true);
                 ("message", VStr "Request successful");
                 ("statusCode", VNum 404)]))
  ∧ ∀ code, obj_get "statusCode" [("statusCode", VNum 404)] = Some code →
            field "statusCode"
                  (VObj [("success", VBool true);
                         ("message", VStr "Request successful");
                         ("statusCode", VNum 404)]) = Some code.
Proof.
  apply (success_status_is_response_status false
           (Example.bound {| source := "async () => { return {statusCode: 404}}";
                             run := λ _ res, (res, Resolved [("statusCode", VNum 404)]) |})
           Example.get_profile_request fresh_response fresh_response
           [("statusCode", VNum 404)]).
  - reflexivity.
  - reflexivity.
  - simpl. lia.
  - apply NoDup_singleton.
Defined.

(** C10 as stated fails for a handler that sets the status on the raw
    response before it resolves: the status transmitted is the one it set. *)
Lemma handler_status_is_transmitted :
  dispatch false (Example.bound Example.created) Example.get_profile_request fresh_response
  = Ok (Transmit 201
          (VObj [("success", VBool true);
                 ("message", VStr "Request successful");
                 ("statusCode", VNum 201)]))
  ∧ ¬ ∃ payload,
        dispatch false (Example.bound Example.created) Example.get_profile_request fresh_response
        = Ok (Transmit 200 payload).
Proof.
  split; [reflexivity|]. intros (payload & H). vm_compute in H. discriminate.
Qed.

(** It fails as well without any help of the handler: the same request
    sent with [If-None-Match: *] is answered 304 without a body, and a
    handler that sets 204 gets no body through. *)
Lemma success_without_body :
  dispatch false (Example.bound Example.get_profile) Example.get_profile_request
           fresh_response
  = Ok (Transmit 200
          (VObj [("success", VBool true);
                 ("message", VStr "Request successful");
                 ("data", VStr "profile")]))
  ∧ dispatch false (Example.bound Example.get_profile) Example.conditional_request
             fresh_response
    = Ok (Bodiless 304)
  ∧ dispatch false (Example.bound Example.no_content) Example.get_profile_request
             fresh_response
    = Ok (Bodiless 204).
Proof. repeat split. Qed.

(** ** The documentation assembler *)

(** C7, as the code has it.  Without explicit detail parameters the
    descriptors are the entries of the params shape, as required [path]
    parameters; the array built from them is truthy even when it is empty,
    so the query shape is never consulted. *)
Theorem parameters_ignore_query (endpoint : AppSwagger) (fromParams : Fields) :
  detail endpoint ≫= d_params = None →
  Object_entries (params endpoint) = Ok fromParams →
  SwaggerDoc.parameters endpoint
  = Ok (VArr (SwaggerDoc.parameter "path" true <$> fromParams)).
Proof.
  intros Hdetail Hparams. unfold SwaggerDoc.parameters.
  rewrite Hdetail, Hparams. reflexivity.
Qed.

Lemma parameters_ignore_query_witness :
  SwaggerDoc.parameters
    {| path := "/api/profile"; method := GET; detail := None;
       body := VObj []; query := zodToObject (ZodObject [("username", ZodString)]);
       params := VObj []; response := VObj [] |}
  = Ok (VArr (SwaggerDoc.parameter "path" true <$> [])).
Proof.
  apply (parameters_ignore_query
           {| path := "/api/profile"; method := GET; detail := None;
              body := VObj []; query := zodToObject (ZodObject [("username", ZodString)]);
              params := VObj []; response := VObj [] |} []);
    reflexivity.
Defined.

(** The route [GET /api/profile] of the example declares a query schema
    and no params: its entry has the query shape, and no parameter is
    documented. *)
Lemma query_route_has_no_parameters :
  ∃ endpoint,
    swaggerPath (server Example.mounted) !! 2 = Some endpoint
    ∧ entry_key endpoint = ("/api/profile", GET)
    ∧ query endpoint = VObj [("username", VStr "string")]
    ∧ SwaggerDoc.parameters endpoint = Ok (VArr []).
Proof. eexists. split; [reflexivity|]. repeat split. Qed.

(** Explicit detail parameters come first. *)
Lemma parameters_explicit (endpoint : AppSwagger) (d : SwaggerDetail)
  (ps : list IParameters) :
  detail endpoint = Some d → d_params d = Some ps →
  SwaggerDoc.parameters endpoint = Ok (VArr (SwaggerDoc.explicit_parameter <$> ps)).
Proof.
  intros Hd Hps. unfold SwaggerDoc.parameters. rewrite Hd. simpl. rewrite Hps.
  reflexivity.
Qed.

(** ** Routers and the server *)

Lemma register_loop (todo : list Route) (r r' : AppRouter) :
  forEach register_route r todo = Ok r' →
  router_routes r' = router_routes r
  ∧ (λ b, (b_path b, b_method b)) <$> router_instance r'
    = ((λ b, (b_path b, b_method b)) <$> router_instance r)
      ++ ((λ route, (route_path route, route_method route)) <$> todo).
Proof.
  revert r. induction todo as [|route todo IH]; intros r Hreg; simpl in *.
  - injection Hreg as <-. rewrite app_nil_r. split; reflexivity.
  - apply bind_Ok in Hreg as (r1 & Hstep & Hrest).
    apply bind_Ok in Hstep as (schemaObject & _ & [= <-]).
    apply IH in Hrest as [Hroutes Hinst]. simpl in *.
    split; [exact Hroutes|]. rewrite Hinst, fmap_app, <- app_assoc. reflexivity.
Qed.

Lemma register_spec (r r' : AppRouter) :
  register r = Ok r' →
  router_routes r' = router_routes r
  ∧ (λ b, (b_path b, b_method b)) <$> router_instance r'
    = ((λ b, (b_path b, b_method b)) <$> router_instance r)
      ++ ((λ route, (route_path route, route_method route)) <$> router_routes r).
Proof. apply register_loop. Qed.

(** C3, as the code has it.  [router] empties the route list of the
    server it is called on; the list of the sub-router it mounts is left as
    it was. *)
Theorem router_clears_host_routes (path : string) (router : nat)
  (middleware : list RequestHandler) (w w' : World) (r : AppRouter) :
  heap w !! router = Some r →
  AppServer_router path router middleware w = Ok w' →
  routes (server w') = []
  ∧ ∃ r', heap w' !! router = Some r' ∧ router_routes r' = router_routes r.
Proof.
  intros Hr Hmount. unfold AppServer_router, the_router in Hmount. rewrite Hr in Hmount.
  simpl in Hmount.
  apply bind_Ok in Hmount as (sp & _ & Hmount).
  apply bind_Ok in Hmount as (r' & Hreg & [= <-]). simpl.
  split; [reflexivity|]. exists r'. split.
  - apply list_lookup_insert_eq. eapply lookup_lt_Some. exact Hr.
  - apply register_spec in Hreg as [Hroutes _]. exact Hroutes.
Qed.

Lemma router_clears_host_routes_witness :
  program Example.declarations = Ok Example.declared
  ∧ (route_path <$> routes (server Example.declared)) = ["/profile"; "/profile"]
  ∧ (route_path <$> default [] (router_routes <$> heap Example.declared !! 0))
    = ["/profiles"; "/profile/:id"; "/profile"]
  ∧ AppServer_router "/api" 0 [] Example.declared = Ok Example.mounted
  ∧ routes (server Example.mounted) = []
  ∧ ∃ r', heap Example.mounted !! 0 = Some r'
          ∧ (route_path <$> router_routes r') = ["/profiles"; "/profile/:id"; "/profile"].
Proof.
  split; [reflexivity|]. split; [reflexivity|]. split; [reflexivity|].
  split; [reflexivity|].
  destruct (router_clears_host_routes "/api" 0 [] Example.declared Example.mounted
              (default {| router_routes := []; router_instance := [] |}
                       (heap Example.declared !! 0)))
    as (Hroutes & r' & Hr' & Hsame); [reflexivity | reflexivity |].
  split; [exact Hroutes|]. exists r'. split; [exact Hr'|]. rewrite Hsame. reflexivity.
Defined.

(** ** Response-shape inference *)

(** On the mounting path the text of the handler goes through
    [parseJson], which answers the empty object when [JSON.parse] throws. *)
Lemma parseJson_degrades (text : string) :
  JSON.read text = None → parseJson text = VObj [].
Proof. intros H. unfold parseJson, JSON.parse. rewrite H. reflexivity. Qed.

(** C2, as the code has it.  For a handler whose text after [return] is not
    JSON, the mounting path records the empty object, but the loop of
    [listen] calls [JSON.parse] unguarded and the [SyntaxError] escapes. *)
Theorem listen_inference_raises (srv : AppServer) (route : Route) (text : string) :
  jsonString (route_handler route) = Ok text →
  JSON.read text = None →
  parseJson text = VObj []
  ∧ listen_bind srv route
    = Throw (ThrowError (new_SyntaxError "Unexpected token in JSON")).
Proof.
  intros Htext Hread. split; [apply parseJson_degrades; exact Hread|].
  unfold listen_bind. rewrite createZodSchema_Ok. simpl. rewrite Htext. simpl.
  unfold JSON.parse. rewrite Hread. reflexivity.
Qed.

Lemma listen_inference_raises_witness :
  parseJson (" { " +:+ dquote +:+ "data" +:+ dquote +:+ ": 'profile' }
    }") = VObj []
  ∧ listen_bind (server new_AppServer)
      {| route_path := "/profile"; route_method := POST;
         route_handler := Example.post_profile; route_schemas := None |}
    = Throw (ThrowError (new_SyntaxError "Unexpected token in JSON")).
Proof.
  apply (listen_inference_raises (server new_AppServer)
           {| route_path := "/profile"; route_method := POST;
              route_handler := Example.post_profile; route_schemas := None |});
    reflexivity.
Defined.

(** The whole of [listen] fails with it: the program of [src/index.ts]
    without its [app.router] call keeps the two routes declared on the
    server, and [listen] throws on the first. *)
Lemma listen_throws_on_declared_routes :
  AppServer_listen Example.declared
  = Throw (ThrowError (new_SyntaxError "Unexpected token in JSON")).
Proof. reflexivity. Qed.

(** On both paths a handler whose text has no [return] makes the
    extraction itself throw, before any parsing. *)
Lemma inference_raises_without_return (handler : RouteHandler) :
  split "return" (source handler) !! 1 = None →
  jsonString handler
  = Throw (ThrowError
             (new_TypeError "Cannot read properties of undefined (reading 'replace')")).
Proof. intros H. unfold jsonString. rewrite H. reflexivity. Qed.

Lemma router_throws_without_return :
  (program [CallNewRouter;
            CallRoute (OnRouter 0) GET "/ping"
              {| source := "async () => ({ data: 'pong' })";
                 run := λ _ res, (res, Resolved [("data", VStr "pong")]) |} None]
   ≫= AppServer_router "/api" 0 [])
  = Throw (ThrowError
             (new_TypeError "Cannot read properties of undefined (reading 'replace')")).
Proof. reflexivity. Qed.

(** ** Documentation entries and bound routes *)

Lemma bound_routes_ext (h1 h2 : list AppRouter) (layers : list Layer) :
  (∀ mount router, LRouter mount router ∈ layers →
                   instance_of h1 router = instance_of h2 router) →
  flat_map (layer_routes h1) layers = flat_map (layer_routes h2) layers.
Proof.
  induction layers as [|l layers IH]; intros Hsame; simpl; [reflexivity|].
  rewrite IH by (intros mount router Hin; apply (Hsame mount); right; exact Hin).
  f_equal. destruct l as [name|mount fn|mount router|b|spec]; simpl; try reflexivity.
  rewrite (Hsame mount router) by left. reflexivity.
Qed.

Lemma instance_of_new (h : list AppRouter) (router : nat) :
  instance_of (h ++ [{| router_routes := []; router_instance := [] |}]) router
  = instance_of h router.
Proof.
  unfold instance_of. destruct (h !! router) as [r|] eqn:Hr.
  - rewrite (lookup_app_l_Some _ _ _ _ Hr). reflexivity.
  - apply lookup_ge_None in Hr. rewrite lookup_app_r by exact Hr.
    destruct (router - length h) as [|n]; reflexivity.
Qed.

Lemma instance_of_insert (h : list AppRouter) (at_ : nat) (r r' : AppRouter)
  (router : nat) :
  h !! at_ = Some r → router_instance r' = router_instance r →
  instance_of (<[at_ := r']> h) router = instance_of h router.
Proof.
  intros Hr Hsame. unfold instance_of. destruct (decide (at_ = router)) as [<-|Hne].
  - rewrite list_lookup_insert_eq by (eapply lookup_lt_Some; exact Hr).
    rewrite Hr. simpl. rewrite Hsame. reflexivity.
  - rewrite list_lookup_insert_ne by exact Hne. reflexivity.
Qed.

Lemma use_layers_bind_nothing (h : list AppRouter) (mount : string)
  (middleware : list RequestHandler) :
  flat_map (layer_routes h) (LUse mount <$> middleware) = [].
Proof. induction middleware as [|fn fns IH]; simpl; [reflexivity | exact IH]. Qed.

Lemma use_layers_mount_nothing (mount mount' : string) (router : nat)
  (middleware : list RequestHandler) :
  LRouter mount router ∉ LUse mount' <$> middleware.
Proof.
  intros Hin. apply list_elem_of_fmap_1 in Hin as (x & [=] & _).
Qed.

Lemma document_route_loop (path : string) (todo : list Route)
  (sp sp' : list AppSwagger) :
  forEach (document_route path) sp todo = Ok sp' →
  entry_key <$> sp'
  = (entry_key <$> sp)
    ++ ((λ route, (path +:+ route_path route, route_method route)) <$> todo).
Proof.
  revert sp. induction todo as [|route todo IH]; intros sp Hloop; simpl in *.
  - injection Hloop as <-. rewrite app_nil_r. reflexivity.
  - apply bind_Ok in Hloop as (sp1 & Hstep & Hrest).
    apply bind_Ok in Hstep as (text & _ & [= <-]).
    rewrite (IH _ Hrest), fmap_app, <- app_assoc. reflexivity.
Qed.

Lemma use_layers_assemble_nothing (mount : string) (middleware : list RequestHandler) :
  flat_map (λ l, match l with LSwaggerUi spec => [spec] | _ => [] end)
           (LUse mount <$> middleware) = [].
Proof. induction middleware as [|fn fns IH]; simpl; [reflexivity | exact IH]. Qed.

Lemma consistent_equiv (m1 m2 : list nat) (w : World) :
  (∀ router, router ∈ m1 ↔ router ∈ m2) → consistent m1 w → consistent m2 w.
Proof.
  intros Heq (Hkeys & Hlayers & Hfresh & Hasm). split; [exact Hkeys|]. split; [|split].
  - intros mount router Hin. apply Heq. exact (Hlayers mount router Hin).
  - intros router r Hnot. apply Hfresh. intros Hin. apply Hnot, Heq. exact Hin.
  - exact Hasm.
Qed.

(** Every call keeps the registration consistent, as long as [register]
    runs on a sub-router on which it did not run before. *)
Lemma call_consistent (c : Call) (w w' : World) (mounted : list nat) :
  consistent mounted w →
  (∀ router, router ∈ registrations [c] → router ∉ mounted) →
  call w c = Ok w' →
  consistent (registrations [c] ++ mounted) w'.
Proof.
  intros (Hkeys & Hlayers & Hfresh & Hasm) Hnew Hcall.
  destruct c as [|[|router] m p h s|middleware|p router middleware|router];
    simpl in Hcall, Hnew.
  - (* new AppRouter() *)
    injection Hcall as <-. split; [|split; [|split]].
    + transitivity (bound_routes w); [exact Hkeys|].
      unfold bound_routes. simpl. apply bound_routes_ext.
      intros mount router _. symmetry. apply instance_of_new.
    + exact Hlayers.
    + simpl. intros router r Hnot Hr. apply lookup_app_Some in Hr as [Hr|[_ Hr]].
      * exact (Hfresh router r Hnot Hr).
      * destruct (router - length (heap w)) as [|n]; [|discriminate].
        injection Hr as <-. reflexivity.
    + exact Hasm.
  - (* a route declared on the server *)
    injection Hcall as <-. split; [exact Hkeys|].
    split; [exact Hlayers|]. split; [exact Hfresh | exact Hasm].
  - (* a route declared on a sub-router *)
    apply bind_Ok in Hcall as (r & Hr & [= <-]). unfold the_router in Hr.
    destruct (heap w !! router) as [r0|] eqn:Hr0; [|discriminate]. injection Hr as <-.
    split; [|split; [|split]].
    + transitivity (bound_routes w); [exact Hkeys|].
      unfold bound_routes. simpl. apply bound_routes_ext.
      intros mount x _. symmetry. apply (instance_of_insert _ _ r0); [exact Hr0 | reflexivity].
    + exact Hlayers.
    + simpl. intros x r Hnot Hx. destruct (decide (router = x)) as [<-|Hne].
      * rewrite list_lookup_insert_eq in Hx by (eapply lookup_lt_Some; exact Hr0).
        injection Hx as <-. simpl. exact (Hfresh router r0 Hnot Hr0).
      * rewrite list_lookup_insert_ne in Hx by exact Hne. exact (Hfresh x r Hnot Hx).
    + exact Hasm.
  - (* app.use *)
    unfold AppServer_use in Hcall. destruct middleware as [|fn fns]; [discriminate|].
    injection Hcall as <-. split; [|split; [|split]].
    + transitivity (bound_routes w); [exact Hkeys|].
      unfold bound_routes. simpl app. simpl heap. rewrite flat_map_app.
      rewrite (use_layers_bind_nothing _ "/" (fn :: fns)), app_nil_r. reflexivity.
    + intros mount router Hin. cbn [app server] in Hin.
      apply elem_of_app in Hin as [Hin|Hin].
      * exact (Hlayers mount router Hin).
      * exfalso. exact (use_layers_mount_nothing mount "/" router (fn :: fns) Hin).
    + exact Hfresh.
    + unfold assembled in *. simpl app. rewrite flat_map_app, Hasm.
      exact (use_layers_assemble_nothing "/" (fn :: fns)).
  - (* app.router *)
    assert (router ∉ mounted) as Hrouter by (apply Hnew; left).
    unfold AppServer_router in Hcall.
    apply bind_Ok in Hcall as (r & Hr & Hcall). unfold the_router in Hr.
    destruct (heap w !! router) as [r0|] eqn:Hr0; [|discriminate]. injection Hr as <-.
    apply bind_Ok in Hcall as (sp & Hsp & Hcall).
    apply bind_Ok in Hcall as (r' & Hreg & [= <-]).
    apply document_route_loop in Hsp. apply register_spec in Hreg as [_ Hinst].
    rewrite (Hfresh router r0 Hrouter Hr0) in Hinst. simpl in Hinst.
    split; [|split; [|split]].
    + transitivity (bound_routes w
                    ++ ((λ route, (p +:+ route_path route, route_method route))
                          <$> router_routes r0)).
      { simpl. rewrite Hsp, Hkeys. reflexivity. }
      unfold bound_routes. simpl app. simpl heap.
      rewrite !flat_map_app, use_layers_bind_nothing. simpl. rewrite app_nil_r.
      f_equal.
      * apply bound_routes_ext. intros mount x Hin. unfold instance_of.
        rewrite list_lookup_insert_ne; [reflexivity|].
        intros <-. apply Hrouter. exact (Hlayers mount router Hin).
      * unfold instance_of.
        rewrite list_lookup_insert_eq by (eapply lookup_lt_Some; exact Hr0). simpl.
        assert (∀ (bs : list BoundRoute) (rs : list Route),
                  (λ b, (b_path b, b_method b)) <$> bs
                  = (λ route, (route_path route, route_method route)) <$> rs →
                  (λ b, (p +:+ b_path b, b_method b)) <$> bs
                  = (λ route, (p +:+ route_path route, route_method route)) <$> rs)
          as Hprefix.
        { induction bs as [|b bs IH]; intros [|route rs] Heq; simpl in *;
            try discriminate; [reflexivity|].
          injection Heq as Hp Hm Hrest. rewrite Hp, Hm. f_equal. apply IH. exact Hrest. }
        symmetry. apply Hprefix. exact Hinst.
    + intros mount x Hin. cbn [app server] in Hin.
      apply elem_of_app in Hin as [Hin|Hin].
      * right. exact (Hlayers mount x Hin).
      * apply elem_of_app in Hin as [Hin|Hin].
        -- exfalso. exact (use_layers_mount_nothing mount p x middleware Hin).
        -- apply list_elem_of_singleton in Hin. injection Hin as _ ->. left.
    + simpl. intros x r Hnot Hx. apply not_elem_of_cons in Hnot as [Hne Hnot].
      rewrite list_lookup_insert_ne in Hx by (intros ->; apply Hne; reflexivity).
      exact (Hfresh x r Hnot Hx).
    + unfold assembled in *. simpl app. rewrite !flat_map_app, Hasm.
      rewrite use_layers_assemble_nothing. reflexivity.
  - (* router.register() *)
    assert (router ∉ mounted) as Hrouter by (apply Hnew; left).
    apply bind_Ok in Hcall as (r & Hr & Hcall). unfold the_router in Hr.
    destruct (heap w !! router) as [r0|] eqn:Hr0; [|discriminate]. injection Hr as <-.
    apply bind_Ok in Hcall as (r' & Hreg & [= <-]).
    split; [|split; [|split]].
    + transitivity (bound_routes w); [exact Hkeys|].
      unfold bound_routes. simpl. apply bound_routes_ext. intros mount x Hin.
      unfold instance_of. rewrite list_lookup_insert_ne; [reflexivity|].
      intros <-. apply Hrouter. exact (Hlayers mount router Hin).
    + intros mount x Hin. right. exact (Hlayers mount x Hin).
    + simpl. intros x r Hnot Hx. apply not_elem_of_cons in Hnot as [Hne Hnot].
      rewrite list_lookup_insert_ne in Hx by (intros ->; apply Hne; reflexivity).
      exact (Hfresh x r Hnot Hx).
    + exact Hasm.
Qed.

Lemma new_AppServer_consistent : consistent [] new_AppServer.
Proof.
  split; [reflexivity|]. split; [|split; [|reflexivity]].
  - intros mount router Hin. simpl in Hin.
    repeat (apply elem_of_cons in Hin as [Hin|Hin]; [discriminate|]).
    apply elem_of_nil in Hin. contradiction.
  - intros router r _ Hr. discriminate.
Qed.

Lemma program_consistent (calls : list Call) (w w' : World) (mounted : list nat) :
  consistent mounted w →
  NoDup (registrations calls) →
  (∀ router, router ∈ registrations calls → router ∉ mounted) →
  forEach call w calls = Ok w' →
  consistent (registrations calls ++ mounted) w'.
Proof.
  revert w mounted. induction calls as [|c calls IH]; intros w mounted Hw Hnd Hnew Hrun.
  - injection Hrun as <-. exact Hw.
  - simpl in Hrun. apply bind_Ok in Hrun as (w1 & Hcall & Hrun).
    assert (registrations (c :: calls) = registrations [c] ++ registrations calls)
      as Hcons.
    { unfold registrations. simpl. rewrite app_nil_r. reflexivity. }
    rewrite Hcons in *. clear Hcons.
    apply NoDup_app in Hnd as (_ & Hdisjoint & Hnd).
    apply (call_consistent c w w1 mounted Hw) in Hcall;
      [|intros router Hin; apply Hnew, elem_of_app; left; exact Hin].
    apply (IH w1 (registrations [c] ++ mounted) Hcall Hnd) in Hrun.
    + eapply consistent_equiv; [|exact Hrun].
      intros router. rewrite !elem_of_app. tauto.
    + intros router Hin Hin'. apply elem_of_app in Hin' as [Hc|Hm].
      * exact (Hdisjoint router Hc Hin).
      * apply (Hnew router); [apply elem_of_app; right; exact Hin | exact Hm].
Qed.

Lemma triggers_app (l1 l2 : list Layer) :
  triggers (l1 ++ l2) = triggers l1 + triggers l2.
Proof. unfold triggers. rewrite filter_app, length_app. reflexivity. Qed.

Lemma route_layers_spec (h : list AppRouter) (bs : list BoundRoute) :
  flat_map (layer_routes h) (LRoute <$> bs) = (λ b, (b_path b, b_method b)) <$> bs
  ∧ flat_map (λ l, match l with LSwaggerUi spec => [spec] | _ => [] end)
             (LRoute <$> bs) = []
  ∧ triggers (LRoute <$> bs) = 0.
Proof.
  induction bs as [|b bs (IH1 & IH2 & IH3)]; [repeat split|].
  split; [simpl; f_equal; exact IH1|]. split; [exact IH2 | exact IH3].
Qed.

Lemma document_layers_spec (h : list AppRouter) (docs : list JsVal) :
  flat_map (layer_routes h) (LSwaggerUi <$> docs) = []
  ∧ flat_map (λ l, match l with LSwaggerUi spec => [spec] | _ => [] end)
             (LSwaggerUi <$> docs) = docs
  ∧ triggers (LSwaggerUi <$> docs) = 0.
Proof.
  induction docs as [|d docs (IH1 & IH2 & IH3)]; [repeat split|].
  split; [exact IH1|]. split; [simpl; f_equal; exact IH2 | exact IH3].
Qed.

(** The first loop of [listen] adds one entry and one route layer per
    route, in the same order. *)
Lemma listen_bind_loop (todo : list Route) (srv srv' : AppServer) :
  forEach listen_bind srv todo = Ok srv' →
  ∃ bs : list BoundRoute,
    app srv' = app srv ++ (LRoute <$> bs)
    ∧ entry_key <$> swaggerPath srv'
      = (entry_key <$> swaggerPath srv) ++ ((λ b, (b_path b, b_method b)) <$> bs).
Proof.
  revert srv. induction todo as [|route todo IH]; intros srv Hloop; simpl in Hloop.
  - injection Hloop as <-. exists []. simpl. rewrite !app_nil_r. split; reflexivity.
  - apply bind_Ok in Hloop as (srv1 & Hstep & Hrest). unfold listen_bind in Hstep.
    apply bind_Ok in Hstep as (schemaObject & _ & Hstep).
    apply bind_Ok in Hstep as (text & _ & Hstep).
    apply bind_Ok in Hstep as (parsed & _ & [= <-]).
    destruct (IH _ Hrest) as (bs & Happ & Hkeys). simpl in Happ, Hkeys.
    exists (bind_route route schemaObject :: bs). split.
    + rewrite Happ, <- app_assoc. reflexivity.
    + rewrite Hkeys, fmap_app, <- app_assoc. reflexivity.
Qed.

(** The second loop assembles one document per trigger layer, each from
    the entries accumulated so far, and leaves the entries as they are. *)
Lemma listen_document_loop (layers : list Layer) (srv srv' : AppServer) :
  forEach listen_document srv layers = Ok srv' →
  swaggerPath srv' = swaggerPath srv
  ∧ ∃ docs : list JsVal,
      app srv' = app srv ++ (LSwaggerUi <$> docs)
      ∧ length docs = triggers layers
      ∧ Forall (λ doc, SwaggerDoc.apiDoc (swaggerPath srv) = Ok doc) docs.
Proof.
  revert srv. induction layers as [|l layers IH]; intros srv Hloop; simpl in Hloop.
  - injection Hloop as <-. split; [reflexivity|]. exists [].
    simpl. rewrite app_nil_r. repeat split. constructor.
  - apply bind_Ok in Hloop as (srv1 & Hstep & Hrest). unfold listen_document in Hstep.
    assert (triggers (l :: layers)
            = (if decide (layer_name l = "SwaggerInitUi") then 1 else 0)
              + triggers layers) as ->.
    { unfold triggers. rewrite filter_cons.
      destruct (decide (layer_name l = "SwaggerInitUi")); reflexivity. }
    destruct (decide (layer_name l = "SwaggerInitUi")) as [Hname|Hname].
    + apply bind_Ok in Hstep as (doc & Hdoc & [= <-]).
      destruct (IH _ Hrest) as (Hsp & docs & Happ & Hlen & Hall). simpl in *.
      split; [exact Hsp|]. exists (doc :: docs). repeat split.
      * rewrite Happ, <- app_assoc. reflexivity.
      * simpl. rewrite Hlen. reflexivity.
      * constructor; [exact Hdoc | exact Hall].
    + injection Hstep as <-.
      destruct (IH _ Hrest) as (Hsp & docs & Happ & Hlen & Hall).
      split; [exact Hsp|]. exists docs. repeat split; assumption.
Qed.

(** C6, as the code has it.  For a program that runs [register] on no
    sub-router twice, the entries follow the bound routes while the program
    runs; when [listen] completes, the sequence accumulated by the end of
    its first loop holds one entry per bound route, in the order of the
    application stack; that sequence is handed to the assembler once for
    every layer named [SwaggerInitUi] in the stack, so not at all without
    such a layer; and both lists of the server are empty afterwards. *)
Theorem entries_follow_bound_routes (calls : list Call) (w w' : World) :
  NoDup (registrations calls) →
  program calls = Ok w →
  AppServer_listen w = Ok w' →
  entry_key <$> swaggerPath (server w) = bound_routes w
  ∧ (∃ bound : AppServer,
       forEach listen_bind (server w) (routes (server w)) = Ok bound
       ∧ entry_key <$> swaggerPath bound = bound_routes w'
       ∧ Forall (λ doc, SwaggerDoc.apiDoc (swaggerPath bound) = Ok doc) (assembled w')
       ∧ length (assembled w') = triggers (app (server w)))
  ∧ swaggerPath (server w') = []
  ∧ routes (server w') = [].
Proof.
  intros Hnd Hprogram Hlisten.
  apply (program_consistent calls new_AppServer w [] new_AppServer_consistent Hnd) in Hprogram;
    [|intros router _; apply not_elem_of_nil].
  destruct Hprogram as (Hkeys & _ & _ & Hasm).
  split; [exact Hkeys|].
  unfold AppServer_listen in Hlisten.
  apply bind_Ok in Hlisten as (bound & Hbound & Hlisten).
  apply bind_Ok in Hlisten as (documented & Hdocs & [= <-]).
  split; [|split; reflexivity].
  exists bound. split; [exact Hbound|].
  apply listen_bind_loop in Hbound as (bs & Hbapp & Hbkeys).
  apply listen_document_loop in Hdocs as (Hsp & docs & Hdapp & Hlen & Hall).
  destruct (route_layers_spec (heap w) bs) as (Hr1 & Hr2 & Hr3).
  destruct (document_layers_spec (heap w) docs) as (Hd1 & Hd2 & Hd3).
  assert (assembled
            {| server := {| routes := []; swaggerPath := [];
                            app := app documented
                                   ++ [LBuiltin "<anonymous>";
                                       LBuiltin "globalErrorHandler"] |};
               heap := heap w |} = docs) as Hassembled.
  { unfold assembled in *. simpl app. rewrite Hdapp, Hbapp, !flat_map_app.
    rewrite Hasm, Hr2, Hd2. simpl. rewrite app_nil_r. reflexivity. }
  split; [|split].
  - rewrite Hbkeys, Hkeys. unfold bound_routes. simpl app. simpl heap.
    rewrite Hdapp, Hbapp, !flat_map_app, Hr1, Hd1. simpl. rewrite !app_nil_r.
    reflexivity.
  - rewrite Hassembled. exact Hall.
  - rewrite Hassembled, Hlen, Hbapp, triggers_app, Hr3. lia.
Qed.

Lemma entries_follow_bound_routes_witness :
  entry_key <$> swaggerPath (server Example.mounted) = bound_routes Example.mounted
  ∧ (∃ bound : AppServer,
       forEach listen_bind (server Example.mounted) (routes (server Example.mounted))
       = Ok bound
       ∧ entry_key <$> swaggerPath bound
         = bound_routes (Example.state (AppServer_listen Example.mounted))
       ∧ Forall (λ doc, SwaggerDoc.apiDoc (swaggerPath bound) = Ok doc)
                (assembled (Example.state (AppServer_listen Example.mounted)))
       ∧ length (assembled (Example.state (AppServer_listen Example.mounted)))
         = triggers (app (server Example.mounted)))
  ∧ swaggerPath (server (Example.state (AppServer_listen Example.mounted))) = []
  ∧ routes (server (Example.state (AppServer_listen Example.mounted))) = [].
Proof.
  apply (entries_follow_bound_routes Example.index_ts).
  - apply (NoDup_singleton 0).
  - reflexivity.
  - reflexivity.
Defined.

(** The same with a route that [listen] itself binds: the entry of the
    pending route joins the sequence before the assembly. *)
Lemma pending_route_is_documented :
  ∃ bound doc,
    forEach listen_bind (server Example.pending) (routes (server Example.pending))
    = Ok bound
    ∧ entry_key <$> swaggerPath bound = [("/items/:id?", GET)]
    ∧ bound_routes (Example.state (AppServer_listen Example.pending))
      = [("/items/:id?", GET)]
    ∧ assembled (Example.state (AppServer_listen Example.pending)) = [doc]
    ∧ SwaggerDoc.apiDoc (swaggerPath bound) = Ok doc.
Proof. eexists _, _. repeat split. Qed.

(** What the example gives: three bound routes under [/api], one
    document. *)
Lemma example_documentation :
  bound_routes (Example.state (AppServer_listen Example.mounted))
  = [("/api/profiles", POST); ("/api/profile/:id", GET); ("/api/profile", GET)]
  ∧ length (assembled (Example.state (AppServer_listen Example.mounted))) = 1.
Proof. split; reflexivity. Qed.

(** C6 as stated fails for the same program without
    [app.use(SwaggerInitUi)]: the three routes are bound, [listen]
    completes, and the entries are cleared without having been handed to
    the assembler. *)
Lemma entries_not_consumed_without_trigger :
  ∃ w w',
    program Example.without_trigger = Ok w
    ∧ AppServer_listen w = Ok w'
    ∧ bound_routes w'
      = [("/api/profiles", POST); ("/api/profile/:id", GET); ("/api/profile", GET)]
    ∧ swaggerPath (server w') = []
    ∧ assembled w' = []
    ∧ length (assembled w') ≠ 1.
Proof.
  exists (Example.state (program Example.without_trigger)),
         (Example.state (AppServer_listen (Example.state (program Example.without_trigger)))).
  repeat split; try reflexivity. discriminate.
Qed.

(** A sub-router mounted twice keeps its routes between the mounts, so
    the second [register] binds them again on the same Express router: each
    mount point dispatches to every route twice, and the entries no longer
    follow the bound routes.  A direct call of [register] before the mount
    has the same effect. *)
Lemma mounted_twice_binds_twice :
  (∃ w,
     program Example.mounted_twice = Ok w
     ∧ entry_key <$> swaggerPath (server w)
       = [("/api/profiles", POST); ("/api/profile/:id", GET); ("/api/profile", GET);
          ("/auth/profiles", POST); ("/auth/profile/:id", GET); ("/auth/profile", GET)]
     ∧ length (bound_routes w) = 12)
  ∧ (∃ w,
       program Example.registered_before_mount = Ok w
       ∧ entry_key <$> swaggerPath (server w)
         = [("/api/profiles", POST); ("/api/profile/:id", GET); ("/api/profile", GET)]
       ∧ bound_routes w
         = [("/api/profiles", POST); ("/api/profile/:id", GET); ("/api/profile", GET);
            ("/api/profiles", POST); ("/api/profile/:id", GET); ("/api/profile", GET)]).
Proof.
  split.
  - exists (Example.state (program Example.mounted_twice)). repeat split.
  - exists (Example.state (program Example.registered_before_mount)). repeat split.
Qed.

(** * Further properties of the code *)

(** ** Loops in the error monad *)

(** A loop completes exactly when each of its steps does, for steps whose
    success does not depend on the state. *)
Lemma forEach_Ok_Forall {A S} (Q : A → Prop) (f : S → A → Result S) (l : list A) :
  (∀ st x, (∃ st', f st x = Ok st') ↔ Q x) →
  ∀ st, (∃ st', forEach f st l = Ok st') ↔ Forall Q l.
Proof.
  intros Hstep. induction l as [|x l IH]; intros st; simpl.
  - split; [constructor | intros _; exists st; reflexivity].
  - split.
    + intros (st' & Hrun). apply bind_Ok in Hrun as (st1 & H1 & Hrest).
      constructor; [apply (Hstep st); exists st1; exact H1|].
      apply (IH st1). exists st'. exact Hrest.
    + intros Hall. apply Forall_cons in Hall as [Hx Hall].
      apply (Hstep st) in Hx as (st1 & H1). rewrite H1. simpl.
      apply (IH st1). exact Hall.
Qed.

(** ** Path parameters *)

Lemma list_ascii_snoc (s : string) (c : ascii) :
  String.list_ascii_of_string (snoc s c) = String.list_ascii_of_string s ++ [c].
Proof. unfold snoc. induction s as [|a s IH]; simpl; [reflexivity|]. f_equal. exact IH. Qed.

Lemma snoc_not_empty (s : string) (c : ascii) : snoc s c ≠ "".
Proof. destruct s; discriminate. Qed.

Lemma match_params_go_names (s : string) (cur : option string) :
  (∀ run, cur = Some run → forallb is_word (String.list_ascii_of_string run) = true) →
  Forall (λ name, name ≠ "" ∧ forallb is_word (String.list_ascii_of_string name) = true)
         (match_params_go cur s).
Proof.
  revert cur. induction s as [|c s IH]; intros cur Hcur.
  - simpl. destruct cur as [run|]; [|constructor].
    destruct (decide (run = "")); constructor; [|constructor].
    split; [assumption | apply Hcur; reflexivity].
  - simpl. destruct cur as [run|].
    + destruct (is_word c) eqn:Hc.
      * apply IH. intros run' [= <-]. rewrite list_ascii_snoc, forallb_app.
        rewrite (Hcur run eq_refl). simpl. rewrite Hc. reflexivity.
      * apply Forall_app. split.
        -- destruct (decide (run = "")); constructor; [|constructor].
           split; [assumption | apply Hcur; reflexivity].
        -- apply IH. intros run'. destruct (decide (c = ":"%char)); intros [= <-].
           reflexivity.
    + apply IH. intros run'. destruct (decide (c = ":"%char)); intros [= <-].
      reflexivity.
Qed.

(** X1.  Every name that the path-parameter pattern extracts from a route
    path is a non-empty run of word characters. *)
Theorem match_params_names (path : string) :
  Forall (λ name, name ≠ "" ∧ forallb is_word (String.list_ascii_of_string name) = true)
         (match_params path).
Proof. apply match_params_go_names. intros run [=]. Qed.

(** X2.  [createZodSchema] never throws: it returns the object built from
    the path, which has one property per distinct parameter name of the
    path, the name [__proto__] apart (assigning to it creates no property),
    each with the empty string as value, in the order JavaScript enumerates
    them (array indices first). *)
Theorem createZodSchema_returns_params (path : string) :
  ∃ schemaObject,
    createZodSchema path = Ok schemaObject
    ∧ NoDup schemaObject.*1
    ∧ enumeration schemaObject.*1
    ∧ (∀ k, k ∈ schemaObject.*1 ↔ k ∈ match_params path ∧ k ≠ "__proto__")
    ∧ Forall (λ kv, kv.2 = VStr "") schemaObject.
Proof.
  exists (createParamsObject path). split; [apply createZodSchema_Ok|].
  destruct (createParamsObject_spec path) as (Hnd & Hord & _ & Hall & Hkeys).
  split; [exact Hnd|]. split; [exact Hord|]. split; [exact Hkeys | exact Hall].
Qed.

(** A parameter named [__proto__] leaves no property, and a numeric name
    is enumerated before the names declared ahead of it. *)
Lemma createZodSchema_special_names :
  createZodSchema "/:__proto__" = Ok []
  ∧ createZodSchema "/:b/:1/:a/:0" = Ok [("0", VStr ""); ("1", VStr "");
                                          ("b", VStr ""); ("a", VStr "")].
Proof. split; reflexivity. Qed.

Lemma match_params_go_static (s : string) :
  ":"%char ∉ String.list_ascii_of_string s → match_params_go None s = [].
Proof.
  induction s as [|c s IH]; simpl; intros Hcolon; [reflexivity|].
  apply not_elem_of_cons in Hcolon as [Hc Hcolon].
  rewrite decide_False by (intros ->; apply Hc; reflexivity). apply IH. exact Hcolon.
Qed.

(** X3.  For a path without a colon the derived object is empty, so the
    bound handler skips [validateParams]: its validation is that of the
    declared schemas alone. *)
Theorem static_path_skips_validateParams (path : string) (schemas : option Schemas)
  (req : Request) :
  ":"%char ∉ String.list_ascii_of_string path →
  createZodSchema path = Ok []
  ∧ validation schemas [] req = validateRequest req schemas.
Proof.
  intros Hcolon. split.
  - rewrite createZodSchema_Ok. unfold createParamsObject, match_params.
    rewrite (match_params_go_static path Hcolon). reflexivity.
  - unfold validation. destruct (validateRequest req schemas) as [[]|e]; reflexivity.
Qed.

Lemma static_path_skips_validateParams_witness :
  createZodSchema "/api/profiles" = Ok []
  ∧ validation None [] Example.no_params = validateRequest Example.no_params None.
Proof.
  apply (static_path_skips_validateParams "/api/profiles" None Example.no_params).
  vm_compute. intros H. repeat (apply elem_of_cons in H as [H|H]; [discriminate|]).
  apply elem_of_nil in H. exact H.
Defined.

(** X4.  [validateParams] accepts a request exactly when every key of the
    derived object has a truthy value in [req.params]; an empty string
    counts as missing. *)
Theorem validateParams_Ok_iff (req : Request) (schemaObject : Fields) :
  validateParams req schemaObject = Ok tt
  ↔ Forall (λ key, truthy (default VUndefined (obj_get key (req_params req))) = true)
           schemaObject.*1.
Proof.
  unfold validateParams. generalize (schemaObject.*1) as keys.
  induction keys as [|k keys IH]; simpl.
  - split; [constructor | reflexivity].
  - destruct (truthy (default VUndefined (obj_get k (req_params req)))) eqn:Hk; simpl.
    + rewrite IH. split; [intros H; constructor; assumption|].
      intros H. apply Forall_cons in H as [_ H]. exact H.
    + split; [discriminate|]. intros H. apply Forall_cons in H as [H _]. congruence.
Qed.

(** ** The request pipeline *)

(** X5.  [validateRequest] accepts a request exactly when each declared
    schema accepts its part: the params schema [req.params], the body schema
    [req.body], the query schema [req.query]. *)
Theorem validateRequest_Ok_iff (req : Request) (schemas : option Schemas) :
  validateRequest req schemas = Ok tt
  ↔ (∀ s, schemas ≫= s_params = Some s → ∃ v, parse s (VObj (req_params req)) = Ok v)
    ∧ (∀ s, schemas ≫= s_body = Some s → ∃ v, parse s (req_body req) = Ok v)
    ∧ (∀ s, schemas ≫= s_query = Some s → ∃ v, parse s (req_query req) = Ok v).
Proof.
  unfold validateRequest. split.
  - intros H. apply bind_Ok in H as (v1 & H1 & H). apply bind_Ok in H as (v2 & H2 & H).
    apply bind_Ok in H as (v3 & H3 & _).
    split; [|split]; intros s Hs; rewrite Hs in *; eexists; eassumption.
  - intros (Hp & Hb & Hq).
    destruct (schemas ≫= s_params) as [sp|];
      [destruct (Hp sp eq_refl) as (v & ->)|]; simpl;
      (destruct (schemas ≫= s_body) as [sb|];
         [destruct (Hb sb eq_refl) as (v' & ->)|]; simpl;
         (destruct (schemas ≫= s_query) as [sq|];
            [destruct (Hq sq eq_refl) as (v'' & ->)|]; reflexivity)).
Qed.

(** X6.  When the validation throws a [ZodError], the answer is HTTP 400
    whatever the handler, the status the response carried and the execution
    mode: the handler is not run, and the details list the issues of the
    error in their order, each with its path and message. *)
Theorem validation_failure_answers_400 (development : bool) (b : BoundRoute)
  (req : Request) (res : Response) (e : JsError) (errors : list ZodIssue) :
  validation (b_schemas b) (b_schemaObject b) req = Throw (ThrowError e) →
  cls e = IsZodError errors →
  dispatch development b req res
  = Ok (Transmit 400
          (VObj [("success", VBool false);
                 ("message", VStr (single_quotes (fromZodError errors)));
                 ("details", VArr (issue_detail <$> errors))])).
Proof.
  intros Hvalid Hcls. unfold dispatch, createHandler, handleError.
  rewrite Hvalid, Hcls. reflexivity.
Qed.

Lemma validation_failure_answers_400_witness :
  dispatch false
    (bind_route {| route_path := "/profiles"; route_method := POST;
                   route_handler := Example.post_profiles;
                   route_schemas := Example.only None (Some Example.bodySchema) None |} [])
    Example.no_params {| statusCode := 201 |}
  = Ok (Transmit 400
          (VObj [("success", VBool false);
                 ("message",
                  VStr (single_quotes
                          (fromZodError [{| issue_path := [PKey "content"];
                                            issue_message := "Required" |}])));
                 ("details",
                  VArr (issue_detail <$> [{| issue_path := [PKey "content"];
                                             issue_message := "Required" |}]))])).
Proof.
  apply (validation_failure_answers_400 false _ Example.no_params {| statusCode := 201 |}
           (new_ZodError [{| issue_path := [PKey "content"]; issue_message := "Required" |}]));
    reflexivity.
Defined.

(** X7.  The message of a validation failure never contains a double
    quote: every one is replaced by a single quote. *)
Theorem validation_message_has_no_double_quote (development : bool) (b : BoundRoute)
  (req : Request) (res : Response) (e : JsError) (errors : list ZodIssue) :
  validation (b_schemas b) (b_schemaObject b) req = Throw (ThrowError e) →
  cls e = IsZodError errors →
  ∃ status payload message,
    dispatch development b req res = Ok (Transmit status payload)
    ∧ field "message" payload = Some (VStr message)
    ∧ ascii_of_N 34 ∉ String.list_ascii_of_string message.
Proof.
  intros Hvalid Hcls. unfold dispatch, createHandler, handleError.
  rewrite Hvalid, Hcls. do 3 eexists. split; [reflexivity|]. split; [reflexivity|].
  generalize (fromZodError errors) as s. induction s as [|c s IH]; simpl.
  - apply not_elem_of_nil.
  - apply not_elem_of_cons. split; [|exact IH].
    destruct (decide _) as [->|Hc];
      [discriminate | intros Heq; apply Hc; symmetry; exact Heq].
Qed.

Lemma validation_message_has_no_double_quote_witness :
  ∃ status payload message,
    dispatch false
      (bind_route {| route_path := "/profiles"; route_method := POST;
                     route_handler := Example.post_profiles;
                     route_schemas := Example.only None (Some Example.bodySchema) None |} [])
      Example.no_params fresh_response
    = Ok (Transmit status payload)
    ∧ field "message" payload = Some (VStr message)
    ∧ ascii_of_N 34 ∉ String.list_ascii_of_string message.
Proof.
  apply (validation_message_has_no_double_quote false _ Example.no_params fresh_response
           (new_ZodError [{| issue_path := [PKey "content"]; issue_message := "Required" |}])
           [{| issue_path := [PKey "content"]; issue_message := "Required" |}]);
    reflexivity.
Defined.

(** X8.  A value that is not an [Error], thrown during the validation, is
    handed by [handleError] to [next] with the response untouched.  A value
    that Express reads as an error is answered by the global error handler:
    HTTP 500 with the message "An unknown error occurred, " followed by the
    text of the value, and no stack.  A falsy value or the string "route"
    is no error for Express: the request goes on and, no other route
    matching, is answered by the fallback for unknown URLs with 404.  With
    the string "router" the request leaves the router. *)
Theorem validation_throws_value (development : bool) (b : BoundRoute)
  (req : Request) (res : Response) (v : JsVal) :
  validation (b_schemas b) (b_schemaObject b) req = Throw (ThrowValue v) →
  match next_signal (ThrowValue v) with
  | Failure =>
      ∃ text,
        dispatch development b req res
        = Ok (Transmit 500
                (VObj [("statusCode", VNum 500);
                       ("message", VStr ("An unknown error occurred, " +:+ text));
                       ("success", VBool false);
                       ("data", VNull);
                       ("traceStack", VUndefined)]))
        ∧ (printable v = true → text = js_String v)
  | GoOn =>
      dispatch development b req res = Ok (Next (ThrowValue v) res)
      ∧ serve development b req res
        = Ok (Transmit 404 (VObj [("message", VStr "Unknown URL");
                                  ("path", VStr (req_originalUrl req))]))
  | LeaveRouter => dispatch development b req res = Ok (Next (ThrowValue v) res)
  end.
Proof.
  intros Hvalid.
  assert (dispatch development b req res
          = match next_signal (ThrowValue v) with
            | Failure => globalErrorHandler development (ThrowValue v) req res
            | _ => Ok (Next (ThrowValue v) res)
            end) as Hnext.
  { unfold dispatch, createHandler, handleError. rewrite Hvalid. reflexivity. }
  destruct (next_signal (ThrowValue v)) eqn:Hsignal.
  - split; [exact Hnext|].
    exact (handed_on_reaches_fallback _ _ _ _ _ _ Hnext Hsignal).
  - exact Hnext.
  - exists (js_String v). split; [|reflexivity]. rewrite Hnext.
    unfold globalErrorHandler. apply res_send_failure. simpl. lia.
Qed.

Lemma validation_throws_value_witness :
  dispatch false
    (bind_route {| route_path := "/profiles"; route_method := POST;
                   route_handler := Example.post_profiles;
                   route_schemas :=
                     Example.only None
                       (Some {| zodType := ZodOther "ZodEffects";
                                parse := λ _, Throw (ThrowValue (VNum 0)) |})
                       None |} [])
    Example.post_profiles_request fresh_response
  = Ok (Next (ThrowValue (VNum 0)) fresh_response)
  ∧ serve false
      (bind_route {| route_path := "/profiles"; route_method := POST;
                     route_handler := Example.post_profiles;
                     route_schemas :=
                       Example.only None
                         (Some {| zodType := ZodOther "ZodEffects";
                                  parse := λ _, Throw (ThrowValue (VNum 0)) |})
                         None |} [])
      Example.post_profiles_request fresh_response
    = Ok (Transmit 404 (VObj [("message", VStr "Unknown URL");
                              ("path", VStr "/profiles")])).
Proof.
  apply (validation_throws_value false _ Example.post_profiles_request fresh_response
           (VNum 0)).
  reflexivity.
Defined.

(** A schema that refuses with a string: the global error handler answers
    500 with the string in the message. *)
Lemma validation_throws_string :
  dispatch false
    (bind_route {| route_path := "/profiles"; route_method := POST;
                   route_handler := Example.post_profiles;
                   route_schemas :=
                     Example.only None
                       (Some {| zodType := ZodOther "ZodEffects";
                                parse := λ _, Throw (ThrowValue (VStr "refused")) |})
                       None |} [])
    Example.post_profiles_request fresh_response
  = Ok (Transmit 500
          (VObj [("statusCode", VNum 500);
                 ("message", VStr "An unknown error occurred, refused");
                 ("success", VBool false);
                 ("data", VNull);
                 ("traceStack", VUndefined)])).
Proof. reflexivity. Qed.

(** X9.  A [ZodError] thrown by the handler itself is not answered as a
    validation failure: it reaches the global error handler, which answers
    500 (404 when the message contains "not found") with the message of the
    error and without a details list. *)
Theorem handler_zod_error_is_not_validation (development : bool) (b : BoundRoute)
  (req : Request) (res res' : Response) (e : JsError) (errors : list ZodIssue) :
  validation (b_schemas b) (b_schemaObject b) req = Ok tt →
  run (b_handler b) req res = (res', Rejected (ThrowError e)) →
  cls e = IsZodError errors →
  ∃ payload,
    dispatch development b req res
    = Ok (Transmit (if includes "not found" (err_message e) then 404%Z else 500%Z) payload)
    ∧ field "message" payload = Some (VStr (err_message e))
    ∧ field "success" payload = Some (VBool false)
    ∧ field "details" payload = None.
Proof.
  intros Hvalid Hrun Hcls.
  rewrite (rejection_reaches_next _ _ _ _ _ _ Hvalid Hrun). cbn [next_signal].
  unfold globalErrorHandler. destruct e as [c n m s ps]. simpl in Hcls. subst c.
  cbn [cls err_message err_stack].
  destruct (includes "not found" m); eexists;
    (split; [apply res_send_failure; simpl; lia|]); repeat split; reflexivity.
Qed.

Lemma handler_zod_error_is_not_validation_witness :
  ∃ payload,
    dispatch false
      (Example.bound (Example.throws
         (new_ZodError [{| issue_path := [PKey "content"]; issue_message := "Required" |}])))
      Example.no_params fresh_response
    = Ok (Transmit 500 payload)
    ∧ field "message" payload = Some (VStr "Required")
    ∧ field "success" payload = Some (VBool false)
    ∧ field "details" payload = None.
Proof.
  apply (handler_zod_error_is_not_validation false
           (Example.bound (Example.throws
              (new_ZodError [{| issue_path := [PKey "content"];
                                issue_message := "Required" |}])))
           Example.no_params fresh_response fresh_response
           (new_ZodError [{| issue_path := [PKey "content"]; issue_message := "Required" |}])
           [{| issue_path := [PKey "content"]; issue_message := "Required" |}]);
    reflexivity.
Defined.

(** X10.  Outside development mode, whatever the handler rejects with, a
    transmitted answer never carries the stack of the error: its
    [traceStack] is [undefined]. *)
Theorem production_hides_stack (b : BoundRoute) (req : Request) (res res' : Response)
  (error : Thrown) (status : Z) (payload : JsVal) :
  validation (b_schemas b) (b_schemaObject b) req = Ok tt →
  run (b_handler b) req res = (res', Rejected error) →
  dispatch false b req res = Ok (Transmit status payload) →
  field "traceStack" payload = Some VUndefined.
Proof.
  intros Hvalid Hrun.
  rewrite (rejection_reaches_next _ _ _ _ _ _ Hvalid Hrun).
  destruct (next_signal error); [discriminate | discriminate |].
  unfold globalErrorHandler. destruct error as [[c n m s ps]|v].
  - destruct c as [|code|errors]; destruct (includes "not found" m);
      intros Hsent; apply res_send_Transmit in Hsent; subst payload; reflexivity.
  - intros Hsent. apply res_send_Transmit in Hsent. subst payload. reflexivity.
Qed.

Lemma production_hides_stack_witness :
  field "traceStack"
    (VObj [("statusCode", VNum 500); ("message", VStr "boom"); ("success", VBool false);
           ("data", VNull); ("traceStack", VUndefined)])
  = Some VUndefined.
Proof.
  apply (production_hides_stack (Example.bound (Example.throws (new_Error "boom")))
           Example.no_params fresh_response fresh_response
           (ThrowError (new_Error "boom")) 500);
    reflexivity.
Defined.

(** [{...a, ...b}] read back: a property of [b] wins, any other is that
    of [a]. *)
Lemma spread_lookup {A} (k : string) (a b : list (string * A)) :
  NoDup b.*1 →
  obj_get k (spread a b) = match obj_get k b with
                           | Some v => Some v
                           | None => obj_get k a
                           end.
Proof.
  intros Hnd. destruct (obj_get k b) as [v|] eqn:Hb; [apply spread_get; assumption|].
  clear Hnd. revert a. unfold spread.
  induction b as [|[k' v'] b IH]; intros a; simpl; [reflexivity|].
  simpl in Hb. destruct (decide (k = k')) as [->|Hne]; [discriminate|].
  rewrite (IH Hb). simpl. rewrite obj_get_set. rewrite decide_False by exact Hne.
  reflexivity.
Qed.

(** X11.  The body sent for a resolved handler is the handler's object
    over the defaults [success: true] and [message: "Request successful"]:
    every property the handler returns is sent as it is, so a handler can
    override either default, and a default is sent only where the handler
    is silent.  That body goes out with the status of the response object,
    unless the status is 204, 205 or 304 or the request is fresh: then no
    body is sent. *)
Theorem envelope_fields (development : bool) (b : BoundRoute)
  (req : Request) (res res' : Response) (result : Fields) :
  validation (b_schemas b) (b_schemaObject b) req = Ok tt →
  run (b_handler b) req res = (res', Resolved result) →
  (100 ≤ statusCode res' ≤ 999)%Z →
  NoDup result.*1 →
  ∃ payload,
    dispatch development b req res
    = Ok (if req_fresh req res' payload then Bodiless 304
          else if decide (bodiless (statusCode res'))
               then Bodiless (statusCode res')
               else Transmit (statusCode res') payload)
    ∧ ∀ k, field k payload
           = match obj_get k result with
             | Some v => Some v
             | None => obj_get k [("success", VBool true);
                                  ("message", VStr "Request successful")]
             end.
Proof.
  intros Hvalid Hrun Hstatus Hnd.
  exists (VObj (spread [("success", VBool true);
                        ("message", VStr "Request successful")] result)).
  split.
  - unfold dispatch, createHandler, preRequest, catchAsync.
    rewrite Hvalid, Hrun. rewrite (res_send_valid _ _ _ Hstatus).
    destruct (req_fresh req res' _); [reflexivity|].
    destruct (decide _); reflexivity.
  - intros k. exact (spread_lookup k _ result Hnd).
Qed.

Lemma envelope_fields_witness :
  ∃ payload,
    dispatch false
      (Example.bound {| source := "async () => { return {success: false}}";
                        run := λ _ res, (res, Resolved [("success", VBool false)]) |})
      Example.get_profile_request fresh_response
    = Ok (Transmit 200 payload)
    ∧ ∀ k, field k payload
           = match obj_get k [("success", VBool false)] with
             | Some v => Some v
             | None => obj_get k [("success", VBool true);
                                  ("message", VStr "Request successful")]
             end.
Proof.
  apply (envelope_fields false
           (Example.bound {| source := "async () => { return {success: false}}";
                             run := λ _ res, (res, Resolved [("success", VBool false)]) |})
           Example.get_profile_request fresh_response fresh_response [("success", VBool false)]).
  - reflexivity.
  - reflexivity.
  - simpl. lia.
  - apply NoDup_singleton.
Defined.

(** ** Response-shape inference and registration *)

Lemma split_go_cons (sep : string) (s : string) (skip : nat) (cur : string) :
  ∃ first rest, split_go sep skip cur s = first :: rest.
Proof.
  revert skip cur. induction s as [|c s IH]; intros skip cur.
  - exists cur, []. reflexivity.
  - cbn [split_go]. destruct skip as [|k]; [|apply IH].
    destruct (String.prefix sep (String c s)); [|apply IH].
    eexists _, _. reflexivity.
Qed.

Lemma split_go_second (sep : string) (s : string) (cur : string) :
  sep ≠ "" →
  is_Some (split_go sep 0 cur s !! 1) ↔ includes sep s = true.
Proof.
  intros Hsep. revert cur. induction s as [|c s IH]; intros cur.
  - cbn [split_go includes]. destruct sep as [|a sep]; [contradiction|].
    simpl. split; [intros [x [=]] | discriminate].
  - cbn [split_go includes]. destruct (String.prefix sep (String c s)) eqn:Hp.
    + destruct (split_go_cons sep s (String.length sep - 1) "") as (first & rest & ->).
      simpl. split; [reflexivity | intros _; eexists; reflexivity].
    + rewrite (IH (snoc cur c)). simpl. reflexivity.
Qed.

Lemma jsonString_Ok_iff (handler : RouteHandler) :
  (∃ text, jsonString handler = Ok text) ↔ includes "return" (source handler) = true.
Proof.
  rewrite <- (split_go_second "return" (source handler) "") by discriminate.
  unfold jsonString, split.
  destruct (split_go "return" 0 "" (source handler) !! 1) as [piece|].
  - split; [intros _; eexists; reflexivity | intros _; eexists; reflexivity].
  - split; [intros (text & [=]) | intros (x & [=])].
Qed.

(** X12.  The text for the response shape can be taken from a handler
    exactly when the word [return] occurs in its source; when it does not,
    the extraction throws a [TypeError]. *)
Theorem jsonString_defined_iff (handler : RouteHandler) :
  ((∃ text, jsonString handler = Ok text) ↔ includes "return" (source handler) = true)
  ∧ (jsonString handler
     = Throw (ThrowError
                (new_TypeError "Cannot read properties of undefined (reading 'replace')"))
     ↔ includes "return" (source handler) = false).
Proof.
  split; [apply jsonString_Ok_iff|].
  destruct (includes "return" (source handler)) eqn:Hret.
  - apply jsonString_Ok_iff in Hret as (text & ->). split; discriminate.
  - split; [reflexivity|]. intros _. unfold jsonString.
    destruct (split "return" (source handler) !! 1) as [piece|] eqn:Hpiece; [|reflexivity].
    assert (∃ text, jsonString handler = Ok text) as Hok.
    { unfold jsonString. rewrite Hpiece. eexists. reflexivity. }
    apply jsonString_Ok_iff in Hok. congruence.
Qed.

Lemma register_loop_exact (todo : list Route) (routes0 : list Route)
  (instance0 : list BoundRoute) :
  forEach register_route {| router_routes := routes0; router_instance := instance0 |} todo
  = Ok {| router_routes := routes0;
          router_instance :=
            instance0 ++ ((λ route, bind_route route (createParamsObject (route_path route)))
                            <$> todo) |}.
Proof.
  revert instance0. induction todo as [|route todo IH]; intros instance0.
  - simpl. rewrite app_nil_r. reflexivity.
  - cbn [forEach].
    assert (register_route {| router_routes := routes0; router_instance := instance0 |} route
            = Ok {| router_routes := routes0;
                    router_instance :=
                      instance0 ++ [bind_route route (createParamsObject (route_path route))] |})
      as ->.
    { unfold register_route. rewrite createZodSchema_Ok. reflexivity. }
    cbn [mbind result_bind]. rewrite IH, <- app_assoc. reflexivity.
Qed.

(** X13.  When [register] completes, it has bound every route of the
    router once, in the order of declaration, behind the routes bound
    before, each with the object derived from its path, and it has kept the
    list of routes: a second call binds all of them again. *)
Theorem register_binds_all (r r' : AppRouter) :
  register r = Ok r' →
  r' = {| router_routes := router_routes r;
          router_instance :=
            router_instance r
            ++ ((λ route, bind_route route (createParamsObject (route_path route)))
                  <$> router_routes r) |}.
Proof.
  intros Hreg. destruct r as [rs inst]. unfold register in Hreg. simpl in *.
  rewrite register_loop_exact in Hreg. injection Hreg as <-. reflexivity.
Qed.

Lemma register_binds_all_witness :
  ∃ r r',
    heap Example.declared !! 0 = Some r
    ∧ heap Example.mounted !! 0 = Some r'
    ∧ length (router_routes r) = 3
    ∧ r' = {| router_routes := router_routes r;
              router_instance :=
                router_instance r
                ++ ((λ route, bind_route route (createParamsObject (route_path route)))
                      <$> router_routes r) |}.
Proof.
  eexists _, _. split; [reflexivity|]. split; [reflexivity|]. split; [reflexivity|].
  apply register_binds_all. reflexivity.
Defined.

Lemma document_route_throws (path : string) (todo : list Route) (sp : list AppSwagger) :
  Exists (λ route, includes "return" (source (route_handler route)) = false) todo →
  forEach (document_route path) sp todo
  = Throw (ThrowError
             (new_TypeError "Cannot read properties of undefined (reading 'replace')")).
Proof.
  revert sp. induction todo as [|route todo IH]; intros sp Hmissing.
  - apply Exists_nil in Hmissing. contradiction.
  - cbn [forEach].
    destruct (includes "return" (source (route_handler route))) eqn:Hreturn.
    + assert (∃ sp1, document_route path sp route = Ok sp1) as (sp1 & ->).
      { apply jsonString_Ok_iff in Hreturn as (text & Htext).
        unfold document_route. rewrite Htext. eexists. reflexivity. }
      cbn [mbind result_bind].
      apply IH. apply Exists_cons in Hmissing as [Hhere|Hlater]; [congruence | exact Hlater].
    + assert (document_route path sp route
              = Throw (ThrowError
                         (new_TypeError
                            "Cannot read properties of undefined (reading 'replace')")))
        as ->; [|reflexivity].
      unfold document_route, jsonString.
      destruct (split "return" (source (route_handler route)) !! 1) as [piece|] eqn:Hpiece;
        [|reflexivity].
      assert (∃ text, jsonString (route_handler route) = Ok text) as Hok.
      { unfold jsonString. rewrite Hpiece. eexists. reflexivity. }
      apply jsonString_Ok_iff in Hok. congruence.
Qed.

(** X14.  Mounting a sub-router throws a [TypeError], and mounts nothing,
    when the source of a handler declared on it does not contain the word
    [return]: the response shape is inferred before anything is bound. *)
Theorem router_requires_return (path : string) (router : nat)
  (middleware : list RequestHandler) (w : World) (r : AppRouter) :
  heap w !! router = Some r →
  Exists (λ route, includes "return" (source (route_handler route)) = false)
         (router_routes r) →
  AppServer_router path router middleware w
  = Throw (ThrowError
             (new_TypeError "Cannot read properties of undefined (reading 'replace')")).
Proof.
  intros Hr Hmissing. unfold AppServer_router, the_router. rewrite Hr.
  cbn [mbind result_bind]. rewrite (document_route_throws _ _ _ Hmissing). reflexivity.
Qed.

Lemma router_requires_return_witness :
  AppServer_router "/api" 0 []
    (Example.state
       (program [CallNewRouter;
                 CallRoute (OnRouter 0) GET "/ready" Example.get_item None;
                 CallRoute (OnRouter 0) GET "/ping"
                   {| source := "async () => ({ data: 'pong' })";
                      run := λ _ res, (res, Resolved [("data", VStr "pong")]) |} None]))
  = Throw (ThrowError
             (new_TypeError "Cannot read properties of undefined (reading 'replace')")).
Proof.
  eapply router_requires_return; [reflexivity|].
  apply Exists_cons. right. apply Exists_cons. left. reflexivity.
Defined.

(** X15.  Declaring a route, on the server or on a sub-router, binds and
    documents nothing: the routes the application dispatches to, its stack
    and the documentation entries are as before.  In particular a route
    declared on a sub-router after its mount is not served. *)
Theorem declaring_binds_nothing (w w' : World) (on : Target) (m : HttpMethod)
  (p : string) (h : RouteHandler) (s : option Schemas) :
  call w (CallRoute on m p h s) = Ok w' →
  bound_routes w' = bound_routes w
  ∧ app (server w') = app (server w)
  ∧ swaggerPath (server w') = swaggerPath (server w).
Proof.
  intros Hcall. destruct on as [|router]; simpl in Hcall.
  - injection Hcall as <-. repeat split.
  - apply bind_Ok in Hcall as (r & Hr & [= <-]). unfold the_router in Hr.
    destruct (heap w !! router) as [r0|] eqn:Hr0; [|discriminate]. injection Hr as <-.
    split; [|split; reflexivity].
    unfold bound_routes. simpl. apply bound_routes_ext. intros mount x _.
    apply (instance_of_insert _ _ r0); [exact Hr0 | reflexivity].
Qed.

Lemma declaring_binds_nothing_witness :
  bound_routes (Example.state (call Example.mounted
                                 (CallRoute (OnRouter 0) GET "/late" Example.get_item None)))
  = bound_routes Example.mounted
  ∧ app (server (Example.state (call Example.mounted
                                  (CallRoute (OnRouter 0) GET "/late" Example.get_item None))))
    = app (server Example.mounted)
  ∧ swaggerPath (server (Example.state (call Example.mounted
                                  (CallRoute (OnRouter 0) GET "/late" Example.get_item None))))
    = swaggerPath (server Example.mounted).
Proof.
  apply (declaring_binds_nothing Example.mounted _ (OnRouter 0) GET "/late"
           Example.get_item None).
  reflexivity.
Defined.

Lemma document_route_loop_app (path : string) (todo : list Route)
  (sp sp' : list AppSwagger) :
  forEach (document_route path) sp todo = Ok sp' →
  ∃ added,
    sp' = sp ++ added
    ∧ entry_key <$> added
      = (λ route, (path +:+ route_path route, route_method route)) <$> todo.
Proof.
  revert sp. induction todo as [|route todo IH]; intros sp Hloop; simpl in Hloop.
  - injection Hloop as <-. exists []. rewrite app_nil_r. split; reflexivity.
  - apply bind_Ok in Hloop as (sp1 & Hstep & Hrest).
    apply bind_Ok in Hstep as (text & _ & [= <-]).
    destruct (IH _ Hrest) as (added & -> & Hkeys).
    eexists (_ :: added). split; [rewrite <- app_assoc; reflexivity|].
    simpl. f_equal. exact Hkeys.
Qed.

(** X16.  What a mount changes and what it leaves: the entries recorded
    before stay, followed by one entry per route of the sub-router under
    the mount path; the stack grows by the middleware of the call and then
    the router; every other sub-router is untouched. *)
Theorem router_frame (path : string) (router : nat) (middleware : list RequestHandler)
  (w w' : World) (r : AppRouter) :
  heap w !! router = Some r →
  AppServer_router path router middleware w = Ok w' →
  (∃ added,
     swaggerPath (server w') = swaggerPath (server w) ++ added
     ∧ entry_key <$> added
       = (λ route, (path +:+ route_path route, route_method route)) <$> router_routes r)
  ∧ app (server w') = app (server w) ++ (LUse path <$> middleware) ++ [LRouter path router]
  ∧ length (heap w') = length (heap w)
  ∧ ∀ other, other ≠ router → heap w' !! other = heap w !! other.
Proof.
  intros Hr Hmount. unfold AppServer_router, the_router in Hmount. rewrite Hr in Hmount.
  simpl in Hmount.
  apply bind_Ok in Hmount as (sp & Hsp & Hmount).
  apply bind_Ok in Hmount as (r' & _ & [= <-]). simpl.
  split; [exact (document_route_loop_app _ _ _ _ Hsp)|]. split; [reflexivity|].
  split; [apply length_insert|].
  intros other Hne. apply list_lookup_insert_ne. congruence.
Qed.

Lemma router_frame_witness :
  (∃ added,
     swaggerPath (server Example.mounted) = swaggerPath (server Example.declared) ++ added
     ∧ entry_key <$> added
       = (λ route, ("/api" +:+ route_path route, route_method route))
           <$> router_routes (default {| router_routes := []; router_instance := [] |}
                                      (heap Example.declared !! 0)))
  ∧ app (server Example.mounted)
    = app (server Example.declared) ++ (LUse "/api" <$> []) ++ [LRouter "/api" 0]
  ∧ length (heap Example.mounted) = length (heap Example.declared)
  ∧ ∀ other, other ≠ 0 → heap Example.mounted !! other = heap Example.declared !! other.
Proof.
  apply (router_frame "/api" 0 [] Example.declared Example.mounted
           (default {| router_routes := []; router_instance := [] |}
                    (heap Example.declared !! 0)));
    reflexivity.
Defined.

Lemma listen_bind_Ok_iff (srv : AppServer) (route : Route) :
  (∃ srv', listen_bind srv route = Ok srv')
  ↔ ∃ text v, jsonString (route_handler route) = Ok text ∧ JSON.read text = Some v.
Proof.
  unfold listen_bind. rewrite createZodSchema_Ok. simpl. split.
  - intros (srv' & H). apply bind_Ok in H as (text & Htext & H).
    apply bind_Ok in H as (v & Hv & _). exists text, v. split; [exact Htext|].
    unfold JSON.parse in Hv. destruct (JSON.read text); [|discriminate].
    injection Hv as ->. reflexivity.
  - intros (text & v & -> & Hv). simpl. unfold JSON.parse. rewrite Hv. simpl.
    eexists. reflexivity.
Qed.

(** X17.  [listen] completes only if, for every route still pending on
    the server, the source of the handler contains [return] and the text
    taken from it is JSON: one pending route whose handler returns an object
    literal with single quotes makes [listen] throw. *)
Theorem listen_requires_json (w w' : World) :
  AppServer_listen w = Ok w' →
  Forall (λ route, ∃ text v, jsonString (route_handler route) = Ok text
                             ∧ JSON.read text = Some v)
         (routes (server w)).
Proof.
  intros Hlisten. unfold AppServer_listen in Hlisten.
  apply bind_Ok in Hlisten as (bound & Hbound & _).
  apply (forEach_Ok_Forall _ listen_bind (routes (server w)) listen_bind_Ok_iff (server w)).
  exists bound. exact Hbound.
Qed.

Lemma listen_requires_json_witness :
  routes (server Example.pending) = [Example.item_route]
  ∧ Forall (λ route, ∃ text v, jsonString (route_handler route) = Ok text
                               ∧ JSON.read text = Some v)
           (routes (server Example.pending)).
Proof.
  split; [reflexivity|].
  apply (listen_requires_json Example.pending
           (Example.state (AppServer_listen Example.pending))).
  reflexivity.
Defined.

(** ** The documentation assembler *)

Lemma requestBody_Ok_iff (endpoint : AppSwagger) :
  (∃ v, SwaggerDoc.requestBody endpoint = Ok v)
  ↔ is_Some (detail endpoint ≫= d_body) ∨ ∃ es, Object_entries (body endpoint) = Ok es.
Proof.
  unfold SwaggerDoc.requestBody, SwaggerDoc.generatedSchema, Object_keys.
  destruct (detail endpoint ≫= d_body) as [b|].
  - split; [intros _; left; eexists; reflexivity | intros _; eexists; reflexivity].
  - destruct (Object_entries (body endpoint)) as [es|e]; simpl.
    + split; [intros _; right; eexists; reflexivity|]. intros _.
      destruct (decide (0 < length es.*1)); eexists; reflexivity.
    + split; [intros (v & [=]) | intros [[x [=]]|(es & [=])]].
Qed.

Lemma responses_Ok_iff (endpoint : AppSwagger) :
  (∃ v, SwaggerDoc.responses endpoint = Ok v)
  ↔ is_Some (detail endpoint ≫= d_response)
    ∨ ∃ es, Object_entries (response endpoint) = Ok es.
Proof.
  unfold SwaggerDoc.responses, SwaggerDoc.generatedSchema, Object_keys.
  destruct (detail endpoint ≫= d_response) as [r|].
  - split; [intros _; left; eexists; reflexivity | intros _; eexists; reflexivity].
  - destruct (Object_entries (response endpoint)) as [es|e]; simpl.
    + split; [intros _; right; eexists; reflexivity|]. intros _.
      destruct (decide (0 < length es.*1)); eexists; reflexivity.
    + split; [intros (v & [=]) | intros [[x [=]]|(es & [=])]].
Qed.

Lemma parameters_Ok_iff (endpoint : AppSwagger) :
  (∃ v, SwaggerDoc.parameters endpoint = Ok v)
  ↔ is_Some (detail endpoint ≫= d_params)
    ∨ ∃ es, Object_entries (params endpoint) = Ok es.
Proof.
  unfold SwaggerDoc.parameters.
  destruct (detail endpoint ≫= d_params) as [ps|].
  - split; [intros _; left; eexists; reflexivity | intros _; eexists; reflexivity].
  - destruct (Object_entries (params endpoint)) as [es|e]; simpl.
    + split; [intros _; right; eexists; reflexivity | intros _; eexists; reflexivity].
    + split; [intros (v & [=]) | intros [[x [=]]|(es & [=])]].
Qed.

Lemma operation_Ok_iff (endpoint : AppSwagger) :
  (∃ op, SwaggerDoc.operation endpoint = Ok op) ↔ documentable endpoint.
Proof.
  unfold documentable.
  rewrite <- requestBody_Ok_iff, <- responses_Ok_iff, <- parameters_Ok_iff.
  unfold SwaggerDoc.operation. split.
  - intros (op & H). apply bind_Ok in H as (rb & Hrb & H).
    apply bind_Ok in H as (rs & Hrs & H). apply bind_Ok in H as (ps & Hps & _).
    split; [|split]; eexists; eassumption.
  - intros ((rb & ->) & (rs & ->) & (ps & ->)). simpl. eexists. reflexivity.
Qed.

(** X18.  [apiDoc] completes exactly when every entry is documentable: the
    only entries it throws on are those whose body, response or params
    shape is [null] or [undefined] while the detail does not declare that
    part. *)
Theorem apiDoc_Ok_iff (entries : list AppSwagger) :
  (∃ doc, SwaggerDoc.apiDoc entries = Ok doc) ↔ Forall documentable entries.
Proof.
  assert (∀ (paths : list (string * Fields)) endpoint,
            (∃ paths', SwaggerDoc.add_endpoint paths endpoint = Ok paths')
            ↔ documentable endpoint) as Hstep.
  { intros paths endpoint. rewrite <- operation_Ok_iff. unfold SwaggerDoc.add_endpoint.
    split.
    - intros (paths' & H). apply bind_Ok in H as (op & Hop & _). exists op. exact Hop.
    - intros (op & ->). simpl. eexists. reflexivity. }
  rewrite <- (forEach_Ok_Forall _ SwaggerDoc.add_endpoint entries Hstep []).
  unfold SwaggerDoc.apiDoc. split.
  - intros (doc & H). apply bind_Ok in H as (paths & Hpaths & _). exists paths. exact Hpaths.
  - intros (paths & ->). simpl. eexists. reflexivity.
Qed.

Lemma method_name_inj (m1 m2 : HttpMethod) : method_name m1 = method_name m2 → m1 = m2.
Proof. destruct m1, m2; simpl; intros H; try reflexivity; discriminate. Qed.

(** What the loop of [apiDoc] has stored for the entries it went through. *)
Lemma add_endpoint_loop (todo done : list AppSwagger) (paths paths' : list (string * Fields)) :
  (∀ e, e ∈ done →
        ∃ ms op, obj_get (path e) paths = Some ms
                 ∧ obj_get (method_name (method e)) ms = Some op
                 ∧ SwaggerDoc.operation e = Ok op) →
  NoDup (entry_key <$> (done ++ todo)) →
  forEach SwaggerDoc.add_endpoint paths todo = Ok paths' →
  ∀ e, e ∈ done ++ todo →
       ∃ ms op, obj_get (path e) paths' = Some ms
                ∧ obj_get (method_name (method e)) ms = Some op
                ∧ SwaggerDoc.operation e = Ok op.
Proof.
  revert done paths. induction todo as [|e' todo IH]; intros done paths Hdone Hnd Hloop.
  - injection Hloop as <-. rewrite app_nil_r. exact Hdone.
  - simpl in Hloop. apply bind_Ok in Hloop as (paths1 & Hstep & Hrest).
    replace (done ++ e' :: todo) with ((done ++ [e']) ++ todo) in *
      by (rewrite <- app_assoc; reflexivity).
    apply (IH (done ++ [e']) paths1); [|exact Hnd | exact Hrest].
    unfold SwaggerDoc.add_endpoint in Hstep.
    apply bind_Ok in Hstep as (op' & Hop' & [= <-]).
    assert (∀ e, e ∈ done → entry_key e ≠ entry_key e') as Hfresh.
    { intros e He Hkey. rewrite !fmap_app in Hnd. apply NoDup_app in Hnd as (Hnd & _ & _).
      apply NoDup_app in Hnd as (_ & Hdis & _).
      apply (Hdis (entry_key e)); [apply list_elem_of_fmap_2; exact He|].
      rewrite Hkey. left. }
    intros e He. apply elem_of_app in He as [He|He].
    + destruct (Hdone e He) as (ms & op & Hms & Hop & Hoperation).
      destruct (decide (path e = path e')) as [Hpath|Hpath].
      * rewrite Hpath in *. rewrite Hms. simpl.
        exists (obj_set (method_name (method e')) op' ms), op.
        rewrite !obj_get_set, decide_True by reflexivity.
        split; [rewrite Hms; reflexivity|]. split; [|exact Hoperation].
        rewrite decide_False; [exact Hop|].
        intros Hm. apply method_name_inj in Hm. apply (Hfresh e He).
        unfold entry_key. rewrite Hpath, Hm. reflexivity.
      * exists ms, op. split; [|split; [exact Hop | exact Hoperation]].
        rewrite obj_get_set, decide_False by exact Hpath.
        destruct (obj_get (path e') paths); [exact Hms|].
        rewrite obj_get_set, decide_False by exact Hpath. exact Hms.
    + apply list_elem_of_singleton in He as ->.
      eexists _, op'. rewrite obj_get_set, decide_True by reflexivity.
      split; [reflexivity|]. split; [|exact Hop'].
      rewrite obj_get_set, decide_True by reflexivity. reflexivity.
Qed.

(** X19.  In the document [apiDoc] assembles from entries with distinct
    path and method, the operation of every entry is found under its path
    and then its method: entries that share a path are merged under it, and
    none overwrites another. *)
Theorem apiDoc_lookup (entries : list AppSwagger) (doc : JsVal) (endpoint : AppSwagger) :
  SwaggerDoc.apiDoc entries = Ok doc →
  NoDup (entry_key <$> entries) →
  endpoint ∈ entries →
  ∃ op,
    SwaggerDoc.operation endpoint = Ok op
    ∧ documented_operation doc (path endpoint) (method_name (method endpoint)) = Some op.
Proof.
  intros Hdoc Hnd Hin. unfold SwaggerDoc.apiDoc in Hdoc.
  apply bind_Ok in Hdoc as (paths & Hpaths & [= <-]).
  destruct (add_endpoint_loop entries [] [] paths) with (e := endpoint)
    as (ms & op & Hms & Hop & Hoperation);
    [intros e He; apply elem_of_nil in He; contradiction | exact Hnd | exact Hpaths
     | exact Hin |].
  exists op. split; [exact Hoperation|].
  unfold documented_operation. simpl. rewrite obj_get_fmap, Hms. simpl. exact Hop.
Qed.

Lemma apiDoc_lookup_witness :
  ∃ op,
    SwaggerDoc.operation
      {| path := "/profile"; method := POST; detail := None; body := VObj [];
         query := VObj []; params := VObj []; response := VObj [] |} = Ok op
    ∧ documented_operation
        (Example.state_doc
           (SwaggerDoc.apiDoc
              [{| path := "/profile"; method := GET; detail := None; body := VObj [];
                  query := VObj [("username", VStr "string")]; params := VObj [];
                  response := VObj [] |};
               {| path := "/profile"; method := POST; detail := None; body := VObj [];
                  query := VObj []; params := VObj []; response := VObj [] |}]))
        "/profile" "post" = Some op.
Proof.
  apply (apiDoc_lookup
           [{| path := "/profile"; method := GET; detail := None; body := VObj [];
               query := VObj [("username", VStr "string")]; params := VObj [];
               response := VObj [] |};
            {| path := "/profile"; method := POST; detail := None; body := VObj [];
               query := VObj []; params := VObj []; response := VObj [] |}]).
  - reflexivity.
  - simpl. apply NoDup_cons. split; [|apply NoDup_singleton].
    intros H. apply list_elem_of_singleton in H. discriminate.
  - right. left.
Defined.

(** ** The shape converter *)

Lemma for_in_keys_ext {A B C} (f : A → B) (g : A → C) (shape : list (string * A))
  (obj : list (string * B)) (obj' : list (string * C)) :
  obj.*1 = obj'.*1 → (for_in f shape obj).*1 = (for_in g shape obj').*1.
Proof.
  revert obj obj'. induction shape as [|[k s] shape IH]; intros obj obj' Hkeys; simpl.
  - exact Hkeys.
  - apply IH. apply obj_assign_keys_ext. exact Hkeys.
Qed.

Lemma for_in_keys_elem {A B} (f : A → B) (shape : list (string * A))
  (obj : list (string * B)) (k : string) :
  k ∈ (for_in f shape obj).*1 ↔ k ∈ obj.*1 ∨ (k ∈ shape.*1 ∧ k ≠ "__proto__").
Proof.
  revert obj. induction shape as [|[k' s] shape IH]; intros obj; simpl.
  - split; [intros H; left; exact H|].
    intros [H|[H _]]; [exact H | apply elem_of_nil in H; contradiction].
  - rewrite IH, obj_assign_keys_elem_of, elem_of_cons. split.
    + intros [[[-> Hne]|Hk]|[Hk Hne]].
      * right. split; [left; reflexivity | exact Hne].
      * left. exact Hk.
      * right. split; [right; exact Hk | exact Hne].
    + intros [Hk|[[->|Hk] Hne]].
      * left. right. exact Hk.
      * left. left. split; [reflexivity | exact Hne].
      * right. split; assumption.
Qed.

(** X20.  For an object schema the two converters agree on the property
    names: the example object and the [properties] of the documentation
    shape have the same keys in the same order, each key once, as
    JavaScript enumerates them, and these are the keys of the schema, the
    key [__proto__] apart, which both converters lose. *)
Theorem converters_same_keys (shape : list (string * ZodType)) :
  ∃ example properties,
    zodToObject (ZodObject shape) = VObj example
    ∧ field "properties" (zodToSwagger (ZodObject shape)) = Some (VObj properties)
    ∧ properties.*1 = example.*1
    ∧ NoDup example.*1
    ∧ enumeration example.*1
    ∧ ∀ k, k ∈ example.*1 ↔ k ∈ shape.*1 ∧ k ≠ "__proto__".
Proof.
  exists (for_in zodToObject shape []), (for_in zodToSwagger shape []).
  split; [reflexivity|]. split; [reflexivity|]. split; [|split; [|split]].
  - apply for_in_keys_ext. reflexivity.
  - apply for_in_NoDup. apply NoDup_nil_2.
  - apply for_in_enumeration. exact I.
  - intros k. rewrite for_in_keys_elem. simpl. split; [|intros H; right; exact H].
    intros [H|H]; [apply elem_of_nil in H; contradiction | exact H].
Qed.

(** A member named [__proto__] is lost by both converters, and a numeric
    key comes first. *)
Lemma converters_special_keys :
  zodToObject (ZodObject [("b", ZodString); ("__proto__", ZodNumber); ("7", ZodNumber)])
  = VObj [("7", VStr "number"); ("b", VStr "string")]
  ∧ zodToSwagger (ZodObject [("b", ZodString); ("__proto__", ZodNumber); ("7", ZodNumber)])
    = VObj [("type", VStr "object");
            ("properties", VObj [("7", VObj [("type", VStr "number")]);
                                 ("b", VObj [("type", VStr "string")])])].
Proof. split; reflexivity. Qed.

(** ** Binding at listen time *)

Lemma listen_bind_loop_exact (todo : list Route) (srv srv' : AppServer) :
  forEach listen_bind srv todo = Ok srv' →
  app srv' = app srv
             ++ (LRoute <$> ((λ route, bind_route route (createParamsObject (route_path route)))
                               <$> todo))
  ∧ routes srv' = routes srv
  ∧ length (swaggerPath srv') = length (swaggerPath srv) + length todo.
Proof.
  revert srv. induction todo as [|route todo IH]; intros srv Hloop; simpl in Hloop.
  - injection Hloop as <-. simpl. rewrite app_nil_r. repeat split. lia.
  - apply bind_Ok in Hloop as (srv1 & Hstep & Hrest). unfold listen_bind in Hstep.
    rewrite createZodSchema_Ok in Hstep. simpl in Hstep.
    apply bind_Ok in Hstep as (text & _ & Hstep).
    apply bind_Ok in Hstep as (parsed & _ & [= <-]).
    destruct (IH _ Hrest) as (Happ & Hroutes & Hlen). simpl in Happ, Hroutes, Hlen.
    split; [rewrite Happ, <- app_assoc; reflexivity|]. split; [exact Hroutes|].
    rewrite Hlen, length_app. simpl. lia.
Qed.

(** X21.  When [listen] completes, the stack is the one before it,
    followed by one route layer for every route that was pending on the
    server, in the order of declaration and each with the object derived
    from its path, then the documentation layers, and last the fallback for
    unknown URLs and the global error handler. *)
Theorem listen_binds_pending (w w' : World) :
  AppServer_listen w = Ok w' →
  ∃ docs,
    app (server w')
    = app (server w)
      ++ (LRoute <$> ((λ route, bind_route route (createParamsObject (route_path route)))
                        <$> routes (server w)))
      ++ (LSwaggerUi <$> docs)
      ++ [LBuiltin "<anonymous>"; LBuiltin "globalErrorHandler"]
    ∧ heap w' = heap w.
Proof.
  intros Hlisten. unfold AppServer_listen in Hlisten.
  apply bind_Ok in Hlisten as (bound & Hbound & Hlisten).
  apply bind_Ok in Hlisten as (documented & Hdocs & [= <-]).
  apply listen_bind_loop_exact in Hbound as (Hbapp & _ & _).
  apply listen_document_loop in Hdocs as (_ & docs & Hdapp & _ & _).
  exists docs. simpl. rewrite Hdapp, Hbapp, <- !app_assoc. split; reflexivity.
Qed.

Lemma listen_binds_pending_witness :
  routes (server Example.pending) = [Example.item_route]
  ∧ ∃ docs,
      app (server (Example.state (AppServer_listen Example.pending)))
      = app (server Example.pending)
        ++ (LRoute <$> ((λ route, bind_route route (createParamsObject (route_path route)))
                          <$> routes (server Example.pending)))
        ++ (LSwaggerUi <$> docs)
        ++ [LBuiltin "<anonymous>"; LBuiltin "globalErrorHandler"]
      ∧ heap (Example.state (AppServer_listen Example.pending)) = heap Example.pending.
Proof.
  split; [reflexivity|].
  apply (listen_binds_pending Example.pending). reflexivity.
Defined.

(** ** The transaction header *)

(** X22.  After the transaction middleware every request carries a
    non-empty transaction header: a non-empty one it came with is kept
    with all the headers as they were, a missing or empty one becomes
    [default-<uuid>], and no other header is touched. *)
Theorem transaction_header_assigned (uuid : string) (headers : gmap string string) :
  (∃ v, transaction_middleware uuid headers !! transaction = Some v ∧ v ≠ "")
  ∧ (∀ k, k ≠ transaction → transaction_middleware uuid headers !! k = headers !! k)
  ∧ (∀ v, headers !! transaction = Some v → v ≠ "" →
          transaction_middleware uuid headers = headers)
  ∧ transaction_middleware uuid (transaction_middleware uuid headers)
    = transaction_middleware uuid headers.
Proof.
  unfold transaction_middleware.
  destruct (decide (default "" (headers !! transaction) = "")) as [Hempty|Hset].
  - split; [|split; [|split]].
    + exists ("default-" +:+ uuid). rewrite lookup_insert_eq. split; [reflexivity | discriminate].
    + intros k Hk. rewrite lookup_insert_ne by congruence. reflexivity.
    + intros v Hv Hne. rewrite Hv in Hempty. simpl in Hempty. contradiction.
    + rewrite lookup_insert_eq. reflexivity.
  - split; [|split; [|split]].
    + destruct (headers !! transaction) as [v|]; [|contradiction].
      exists v. split; [reflexivity | exact Hset].
    + reflexivity.
    + reflexivity.
    + rewrite decide_False by exact Hset. reflexivity.
Qed.

(** ** Requests without an answer *)

Lemma res_send_outcome (req : Request) (payload : JsVal) (res : Response) :
  (∃ status payload', res_send req payload res = Ok (Transmit status payload'))
  ∨ (∃ status, res_send req payload res = Ok (Bodiless status))
  ∨ (¬ (100 ≤ statusCode res ≤ 999)%Z
     ∧ res_send req payload res
       = Throw (ThrowError (ERR_HTTP_INVALID_STATUS_CODE (statusCode res)))).
Proof.
  unfold res_send. destruct (req_fresh req res payload) eqn:Hfresh.
  - right. left. eexists. reflexivity.
  - destruct (decide (100 ≤ statusCode res ≤ 999)%Z) as [Hstatus|Hstatus].
    + destruct (decide (bodiless (statusCode res)));
        [right; left; eexists | left; eexists _, _]; reflexivity.
    + right. right. split; [exact Hstatus | reflexivity].
Qed.

(** X23.  The pipeline sends an answer of its own, with or without a body,
    except in three cases: the promise of the handler never settles, and the
    request stays unanswered; the validation or the handler throws a value
    that Express does not read as an error, and the request is handed on;
    the handler rejects with an [HttpError] whose code is no HTTP status
    (and whose message does not force 404), which the global error handler
    fails to send. *)
Theorem dispatch_answers (development : bool) (b : BoundRoute) (req : Request)
  (res : Response) :
  match dispatch development b req res with
  | Ok (Transmit _ _) | Ok (Bodiless _) => True
  | Ok Unanswered =>
      validation (b_schemas b) (b_schemaObject b) req = Ok tt
      ∧ ∃ res', run (b_handler b) req res = (res', Pending)
  | Ok (Next err res') =>
      next_signal err ≠ Failure
      ∧ ((validation (b_schemas b) (b_schemaObject b) req = Throw err ∧ res' = res)
         ∨ (validation (b_schemas b) (b_schemaObject b) req = Ok tt
            ∧ run (b_handler b) req res = (res', Rejected err)))
  | Throw err =>
      ∃ res' e code,
        validation (b_schemas b) (b_schemaObject b) req = Ok tt
        ∧ run (b_handler b) req res = (res', Rejected (ThrowError e))
        ∧ cls e = IsHttpError code
        ∧ includes "not found" (err_message e) = false
        ∧ ¬ (100 ≤ code ≤ 999)%Z
        ∧ err = ThrowError (ERR_HTTP_INVALID_STATUS_CODE code)
  end.
Proof.
  assert (∀ error res',
            match globalErrorHandler development error req res' with
            | Ok (Transmit _ _) | Ok (Bodiless _) => True
            | Ok _ => False
            | Throw err =>
                ∃ e code,
                  error = ThrowError e ∧ cls e = IsHttpError code
                  ∧ includes "not found" (err_message e) = false
                  ∧ ¬ (100 ≤ code ≤ 999)%Z
                  ∧ err = ThrowError (ERR_HTTP_INVALID_STATUS_CODE code)
            end) as Hglobal.
  { intros error res'. unfold globalErrorHandler.
    destruct error as [[c n m s ps]|v]; cbn [cls err_message err_stack].
    - destruct c as [|code|errors]; destruct (includes "not found" m) eqn:Hm;
        try (rewrite res_send_failure by (simpl; lia); exact I).
      match goal with
      | |- context [res_send req ?p ?r] =>
          destruct (res_send_outcome req p r)
            as [(st & p' & ->)|[(st & ->)|(Hcode & ->)]]
      end; [exact I | exact I |].
      eexists _, code. repeat split; try reflexivity; [exact Hm | exact Hcode].
    - rewrite res_send_failure by (simpl; lia). exact I. }
  unfold dispatch, createHandler.
  destruct (validation (b_schemas b) (b_schemaObject b) req) as [[]|error] eqn:Hvalid.
  - unfold preRequest, catchAsync.
    destruct (run (b_handler b) req res) as [res' [result|error|]] eqn:Hrun.
    + match goal with
      | |- context [res_send req ?p ?r] =>
          destruct (res_send_outcome req p r)
            as [(st & p' & ->)|[(st & ->)|(Hcode & ->)]]
      end; [exact I | exact I |].
      cbn [next_signal]. unfold globalErrorHandler. cbn [cls err_message].
      destruct (includes "not found" _); rewrite res_send_failure by (simpl; lia);
        exact I.
    + destruct (next_signal error) eqn:Hsignal.
      * split; [rewrite Hsignal; discriminate|]. right. split; reflexivity.
      * split; [rewrite Hsignal; discriminate|]. right. split; reflexivity.
      * specialize (Hglobal error res').
        destruct (globalErrorHandler development error req res') as [[]|err];
          try exact I; try contradiction.
        destruct Hglobal as (e & code & -> & Hcls & Hm & Hcode & ->).
        exists res', e, code. repeat split; assumption.
    + split; [reflexivity|]. exists res'. reflexivity.
  - unfold handleError. destruct error as [e|v].
    + destruct (cls e); rewrite res_send_failure by (simpl; lia); exact I.
    + destruct (next_signal (ThrowValue v)) eqn:Hsignal.
      * split; [rewrite Hsignal; discriminate|]. left. split; reflexivity.
      * split; [rewrite Hsignal; discriminate|]. left. split; reflexivity.
      * specialize (Hglobal (ThrowValue v) res).
        destruct (globalErrorHandler development (ThrowValue v) req res) as [[]|err];
          try exact I; try contradiction.
        destruct Hglobal as (e & code & [=] & _).
Qed.
